(** * GoogleAIProvider: the streaming chat adapter of chatless

    A shallow embedding of [GoogleAIProvider] (the adapter whose backend
    streams standalone JSON objects) and the properties of its stream
    handler: duplicate suppression, response-identity resets, terminal
    callbacks, request construction.

    Layout: JavaScript values and the few ECMAScript operations the
    handler applies to them; the adapter's state and its effect monad;
    the adapter's methods; a JSON reader used to run the methods on wire
    text; the theorems. *)

From stdpp Require Import base option list strings gmap pretty.
From Stdlib Require Import Ascii QArith.

Local Close Scope Q_scope.

Local Open Scope string_scope.
Local Open Scope list_scope.

(** ** JavaScript values *)

(** What the handler needs of the Number type.  IEEE arithmetic stays
    outside the development: every definition and theorem below is
    parametric in an implementation of these six operations. *)
Class JsNumber (num : Type) := {
  num_of_nat : nat → num;          (* the Number of a [length] *)
  num_is_zero : num → bool;        (* +0 or -0; JSON has no NaN *)
  num_eqb : num → num → bool;      (* [===] on two Numbers *)
  num_gt_zero : num → bool;        (* [n > 0] *)
  num_to_string : num → string;    (* Number::toString *)
  string_gt_zero : string → bool;  (* [StringToNumber(s) > 0] *)
  (* a length is zero, or positive, as a Number exactly when it is as a count *)
  num_is_zero_of_nat : ∀ n, num_is_zero (num_of_nat n) = bool_decide (n = 0);
  num_gt_zero_of_nat : ∀ n, num_gt_zero (num_of_nat n) = bool_decide (0 < n)
}.

Section Adapter.
Context {num : Type} `{!JsNumber num}.

(** The values [JSON.parse] can return, and [undefined].  An object lists
    its members in source order; a character stands for one code unit. *)
#[warnings="-register-all"]
Inductive value : Type :=
  | VUndefined
  | VNull
  | VBool (b : bool)
  | VNum (n : num)
  | VStr (s : string)
  | VArr (elems : list value)
  | VObj (members : list (string * value)).

(** Own property [k] of an object literal: a repeated name keeps its last
    value. *)
Fixpoint own (members : list (string * value)) (k : string) : option value :=
  match members with
  | [] => None
  | (k', v) :: rest =>
      match own rest k with
      | Some w => Some w
      | None => if String.eqb k k' then Some v else None
      end
  end.

(** [v.k] for a property name [k] that is neither an index nor a member of
    a built-in prototype (all names the adapter reads are such); [None] is
    the TypeError of reading a property of [undefined] or [null]. *)
Definition get (v : value) (k : string) : option value :=
  match v with
  | VUndefined | VNull => None
  | VObj members => Some (default VUndefined (own members k))
  | VArr elems =>
      Some (if String.eqb k "length" then VNum (num_of_nat (length elems)) else VUndefined)
  | VStr s =>
      Some (if String.eqb k "length" then VNum (num_of_nat (String.length s)) else VUndefined)
  | VBool _ | VNum _ => Some VUndefined
  end.

(** [v[0]] for a [v] that is neither [undefined] nor [null]. *)
Definition first (v : value) : value :=
  match v with
  | VArr (x :: _) => x
  | VStr (String c _) => VStr (String c EmptyString)
  | VObj members => default VUndefined (own members "0")
  | _ => VUndefined
  end.

Definition nullish (v : value) : bool :=
  match v with VUndefined | VNull => true | _ => false end.

(** [v?.k] and [v?.[0]]: optional chaining never throws. *)
Definition get_opt (v : value) (k : string) : value :=
  if nullish v then VUndefined else default VUndefined (get v k).

Definition first_opt (v : value) : value :=
  if nullish v then VUndefined else first v.

(** ToBoolean. *)
Definition truthy (v : value) : bool :=
  match v with
  | VUndefined | VNull => false
  | VBool b => b
  | VNum n => negb (num_is_zero n)
  | VStr s => negb (String.eqb s EmptyString)
  | VArr _ | VObj _ => true
  end.

(** [a || b]. *)
Definition or_else (a b : value) : value := if truthy a then a else b.

Definition is_own (members : list (string * value)) (k : string) : bool :=
  bool_decide (is_Some (own members k)).

(** ToString, as a template literal applies it; [None] is a TypeError.
    An array joins its elements with commas, [null] and [undefined]
    elements as the empty string.  A parsed object prints through
    [Object.prototype.toString], unless a member named [toString] (a
    value, so not callable) shadows it. *)
Fixpoint ToString (v : value) : option string :=
  match v with
  | VUndefined => Some "undefined"
  | VNull => Some "null"
  | VBool b => Some (if b then "true" else "false")
  | VNum n => Some (num_to_string n)
  | VStr s => Some s
  | VArr elems =>
      (fix join (l : list value) : option string :=
         match l with
         | [] => Some EmptyString
         | x :: rest =>
             s ← (if nullish x then Some EmptyString else ToString x);
             match rest with
             | [] => Some s
             | _ => t ← join rest; Some (s +:+ "," +:+ t)
             end
         end) elems
  | VObj members =>
      if is_own members "toString" then None else Some "[object Object]"
  end.

(** [v > 0]: ToPrimitive with hint number, ToNumber, then the comparison;
    [None] is the TypeError of ToPrimitive.  [Object.prototype.valueOf]
    returns the object itself, so arrays and objects go through
    [toString]; the text of a plain object is not a number. *)
Definition gt_zero (v : value) : option bool :=
  match v with
  | VUndefined | VNull => Some false
  | VBool b => Some b
  | VNum n => Some (num_gt_zero n)
  | VStr s => Some (string_gt_zero s)
  | VArr _ => s ← ToString v; Some (string_gt_zero s)
  | VObj _ => _ ← ToString v; Some false
  end.

(** [a !== b].  Arrays and objects compare by reference; the adapter only
    compares values of two different [JSON.parse] calls, which never share
    one. *)
Definition strict_neq (a b : value) : bool :=
  match a, b with
  | VUndefined, VUndefined | VNull, VNull => false
  | VBool x, VBool y => negb (eqb x y)
  | VNum x, VNum y => negb (num_eqb x y)
  | VStr x, VStr y => negb (String.eqb x y)
  | _, _ => true
  end.

Definition is_array (v : value) : bool :=
  match v with VArr _ => true | _ => false end.

(** [v === 'STOP'] and the like. *)
Definition is_string (v : value) (s : string) : bool :=
  match v with VStr x => String.eqb x s | _ => false end.


(** [JSON.parse]: [None] is the SyntaxError it throws.  A built-in of the
    platform, so a parameter of the development; section [Json] below
    implements it for the runs on wire text. *)
Class JsonParser := JSON_parse : string → option value.
Context `{!JsonParser}.

(** ** Errors, callbacks, requests *)

(** The things thrown or handed to [onError]. *)
Inductive error : Type :=
  | Error (message : string)   (* [new Error(message)] *)
  | SyntaxError                (* of [JSON.parse]; the text is the engine's *)
  | TypeError                  (* of a property read or a conversion *)
  | NonError (payload : string). (* a value that is no instance of Error *)

Definition instanceof_Error (e : error) : bool :=
  match e with NonError _ => false | _ => true end.

(** Modelled from the spec: [LlmMessage] (declared in BaseProvider, which
    is not among the adapter's sources), a role and a textual content. *)
Record LlmMessage := { role : string; content : string }.

(** The request body the adapter builds. *)
Record body_part := { text : string }.
Record body_content := { content_role : string; parts : list body_part }.
Record thinking_config := { thinkingBudget : Z }.
Record generation_config := { temperature : Q; thinkingConfig : thinking_config }.
Record request_body := { contents : list body_content; generationConfig : generation_config }.

(** The first argument of [startConnection]. *)
Record sse_config := {
  url : string;
  method : string;
  headers : list (string * string);
  body : request_body;
  debugTag : string
}.

(** Modelled from the spec: [StreamCallbacks] (declared in BaseProvider),
    the caller's sink.  Each member is optional ([cb.onToken?.(..)]): the
    record says which ones the caller supplied.  A callback that is
    called returns; what it does is the caller's business. *)
Record StreamCallbacks := {
  onStart : bool;
  onToken : bool;
  onComplete : bool;
  onError : bool
}.

Definition all_callbacks : StreamCallbacks :=
  {| onStart := true; onToken := true; onComplete := true; onError := true |}.

(** What an exchange does to the outside: a connection attempt on the
    transport, or a call of one of the caller's callbacks. *)
Inductive effect : Type :=
  | StartConnection (config : sse_config)
  | OnStart
  | OnToken (token : value)
  | OnComplete
  | OnError (e : error).

(** Modelled from the spec: [CheckResult] (declared in BaseProvider), with
    the members the adapter fills in; [None] is a member left out. *)
Record CheckResult := {
  ok : bool;
  reason : option string;
  message : option string
}.

(** ** The transport and the provider *)

(** Modelled from the spec: the transport primitive ([SSEClient] of
    [@/lib/sse-client], not among the adapter's sources).  For one
    [startConnection] it calls the handlers it was given, in this order,
    and then its promise resolves or rejects. *)
Inductive delivery : Type :=
  | Start                 (* handlers.onStart() *)
  | Data (rawData : string)   (* handlers.onData(rawData) *)
  | Failure (e : error).  (* handlers.onError(e) *)

Record connection := {
  deliveries : list delivery;
  rejection : option error
}.

(** Modelled from the spec: what the methods read of [this] and do not
    write.  [baseUrl] and the credential lookup [getApiKey(model?)] come
    from BaseProvider; the lookup yields a string or [null] ([None]).
    [sseClient] is the transport, as the behaviour it shows for a
    request. *)
Record provider := {
  baseUrl : string;
  getApiKey : option string → option string;
  sseClient : sse_config → connection
}.

(** The three private fields of the class, which the methods write. *)
Record provider_state := {
  lastContentLength : nat;
  processedChunks : gset string;
  currentResponseId : value
}.

Definition initial_state : provider_state :=
  {| lastContentLength := 0; processedChunks := ∅; currentResponseId := VNull |}.

(** ** The effect monad: state of [this], exceptions, trace of effects *)

Inductive outcome (A : Type) : Type :=
  | Returned (a : A)
  | Thrown (e : error).
Global Arguments Returned {A} a.
Global Arguments Thrown {A} e.

Definition M (A : Type) : Type :=
  provider_state → outcome A * provider_state * list effect.

Definition ret {A} (a : A) : M A := λ s, (Returned a, s, []).

Definition bind {A B} (m : M A) (k : A → M B) : M B := λ s,
  match m s with
  | (Returned a, s1, t1) => let '(o, s2, t2) := k a s1 in (o, s2, t1 ++ t2)
  | (Thrown e, s1, t1) => (Thrown e, s1, t1)
  end.

Global Instance M_ret : MRet M := @ret.
Global Instance M_bind : MBind M := λ A B k m, bind m k.

Definition throw {A} (e : error) : M A := λ s, (Thrown e, s, []).

(** [try { m } catch (error) { handler error }]. *)
Definition try_catch {A} (m : M A) (handler : error → M A) : M A := λ s,
  match m s with
  | (Thrown e, s1, t1) => let '(o, s2, t2) := handler e s1 in (o, s2, t1 ++ t2)
  | r => r
  end.

Definition emit (e : effect) : M unit := λ s, (Returned (), s, [e]).

Definition read {A} (field : provider_state → A) : M A := λ s, (Returned (field s), s, []).

Definition write (f : provider_state → provider_state) : M unit :=
  λ s, (Returned (), f s, []).

(** A step that throws a TypeError when it has no value. *)
Definition or_TypeError {A} (o : option A) : M A :=
  match o with Some a => ret a | None => throw TypeError end.

Definition when (b : bool) (m : M unit) : M unit := if b then m else ret ().

(** [for (const x of l) body x]. *)
Fixpoint for_of {A} (l : list A) (body : A → M unit) : M unit :=
  match l with
  | [] => ret ()
  | x :: rest => body x;; for_of rest body
  end.

Definition set_lastContentLength (n : nat) : M unit :=
  write (λ s, {| lastContentLength := n;
                 processedChunks := processedChunks s;
                 currentResponseId := currentResponseId s |}).

Definition processedChunks_clear : M unit :=
  write (λ s, {| lastContentLength := lastContentLength s;
                 processedChunks := ∅;
                 currentResponseId := currentResponseId s |}).

Definition processedChunks_add (k : string) : M unit :=
  write (λ s, {| lastContentLength := lastContentLength s;
                 processedChunks := {[ k ]} ∪ processedChunks s;
                 currentResponseId := currentResponseId s |}).

Definition processedChunks_has (k : string) : M bool :=
  read (λ s, bool_decide (k ∈ processedChunks s)).

Definition set_currentResponseId (v : value) : M unit :=
  write (λ s, {| lastContentLength := lastContentLength s;
                 processedChunks := processedChunks s;
                 currentResponseId := v |}).

(** [cb.onX?.(..)]: a call when the caller supplied the member. *)
Definition cb_onStart (cb : StreamCallbacks) : M unit := when (onStart cb) (emit OnStart).
Definition cb_onToken (cb : StreamCallbacks) (t : value) : M unit := when (onToken cb) (emit (OnToken t)).
Definition cb_onComplete (cb : StreamCallbacks) : M unit := when (onComplete cb) (emit OnComplete).
Definition cb_onError (cb : StreamCallbacks) (e : error) : M unit := when (onError cb) (emit (OnError e)).


(** ** GoogleAIProvider *)

(** [!apiKey] is false: the key is neither [null] nor the empty string. *)
Definition key_present (apiKey : option string) : bool :=
  match apiKey with
  | None => false
  | Some k => negb (String.eqb k EmptyString)
  end.

(** [checkConnection()]. *)
Definition checkConnection (this : provider) : M CheckResult :=
  let apiKey := getApiKey this None in
  if negb (key_present apiKey)
  then mret {| ok := false; reason := Some "NO_KEY"; message := Some "NO_KEY" |}
  else mret {| ok := true; reason := None; message := None |}.

(** [s.replace(/\/$/, '')]: one slash at the very end goes. *)
Fixpoint strip_trailing_slash (s : string) : string :=
  match s with
  | EmptyString => EmptyString
  | String c EmptyString => if Ascii.eqb c "/"%char then EmptyString else s
  | String c rest => String c (strip_trailing_slash rest)
  end.

Definition stream_url (this : provider) (model : string) : string :=
  strip_trailing_slash (baseUrl this) +:+ "/models/" +:+ model +:+ ":streamGenerateContent?alt=sse".

Definition stream_body (messages : list LlmMessage) : request_body :=
  {| contents :=
       map (λ m, {| content_role := if String.eqb (role m) "user" then "user" else "model";
                    parts := [ {| text := content m |} ] |}) messages;
     generationConfig :=
       {| temperature := 0.7%Q;
          thinkingConfig := {| thinkingBudget := 0%Z |} |} |}.

Definition stream_config (this : provider) (model apiKey : string)
    (messages : list LlmMessage) : sse_config :=
  {| url := stream_url this model;
     method := "POST";
     headers := [ ("Content-Type", "application/json");
                  ("x-goog-api-key", apiKey);
                  ("Accept", "text/event-stream");
                  ("Cache-Control", "no-cache");
                  ("Connection", "keep-alive") ];
     body := stream_body messages;
     debugTag := "GoogleAIProvider" |}.

(** [parsedData.candidates?.[0]?.content?.parts?.[0]?.text?.length || 0] *)
Definition observed_length (parsedData : value) : M value :=
  candidates ← or_TypeError (get parsedData "candidates");
  mret (or_else
          (get_opt (get_opt (first_opt (get_opt (get_opt (first_opt candidates)
             "content") "parts")) "text") "length")
          (VNum (num_of_nat 0))).

(** The template literal of [chunkKey]. *)
Definition chunk_key (parsedData : value) : M string :=
  id ← read currentResponseId;
  id_text ← or_TypeError (ToString id);
  len ← observed_length parsedData;
  len_text ← or_TypeError (ToString len);
  mret (id_text +:+ "-" +:+ len_text).

(** The check of the response id at the head of the handler. *)
Definition track_response_id (parsedData : value) : M unit :=
  responseId ← or_TypeError (get parsedData "responseId");
  when (truthy responseId) (
    current ← read currentResponseId;
    when (truthy current && strict_neq current responseId) (
      set_lastContentLength 0;;
      processedChunks_clear);;
    set_currentResponseId responseId).

(** The body of [for (const part of candidate.content.parts)]. *)
Definition emit_part (cb : StreamCallbacks) (part : value) : M unit :=
  part_text ← or_TypeError (get part "text");
  when (truthy part_text) (
    let newContent := part_text in
    len ← or_TypeError (get newContent "length");
    positive ← or_TypeError (gt_zero len);
    when positive (cb_onToken cb newContent)).

(** [if (candidate.content?.parts && Array.isArray(candidate.content.parts))
    { for (const part of candidate.content.parts) { .. } }] *)
Definition emit_parts (cb : StreamCallbacks) (candidate : value) : M unit :=
  candidate_content ← or_TypeError (get candidate "content");
  match get_opt candidate_content "parts" with
  | VArr content_parts => for_of content_parts (emit_part cb)
  | _ => mret ()
  end.

(** The block guarded by [parsedData.candidates && Array.isArray(..) &&
    parsedData.candidates.length > 0]: the candidates are an array with a
    first element. *)
Definition handle_candidates (cb : StreamCallbacks) (parsedData : value) : M unit :=
  candidates ← or_TypeError (get parsedData "candidates");
  match candidates with
  | VArr (candidate :: _) =>
      emit_parts cb candidate;;
      finishReason ← or_TypeError (get candidate "finishReason");
      when (is_string finishReason "STOP") (cb_onComplete cb)
  | _ => mret ()
  end.

(** The check of [parsedData.promptFeedback?.blockReason]. *)
Definition handle_promptFeedback (cb : StreamCallbacks) (parsedData : value) : M unit :=
  promptFeedback ← or_TypeError (get parsedData "promptFeedback");
  let blockReason := get_opt promptFeedback "blockReason" in
  when (truthy blockReason) (
    reason_text ← or_TypeError (ToString blockReason);
    cb_onError cb (Error ("Content blocked: " +:+ reason_text))).

(** The [try] block of the [onData] handler. *)
Definition process_chunk (cb : StreamCallbacks) (rawData : string) : M unit :=
  parsedData ← (match JSON_parse rawData with
                 | Some v => mret v
                 | None => throw SyntaxError
                 end : M value);
  track_response_id parsedData;;
  chunkKey ← chunk_key parsedData;
  seen ← processedChunks_has chunkKey;
  if (seen : bool) then mret ()
  else
    processedChunks_add chunkKey;;
    handle_candidates cb parsedData;;
    handle_promptFeedback cb parsedData.

(** [onData: (rawData) => { try { .. } catch (error) { .. } }]. *)
Definition onData (cb : StreamCallbacks) (rawData : string) : M unit :=
  try_catch (process_chunk cb rawData)
    (λ error,
       cb_onError cb (if instanceof_Error error then error
                      else Error "Failed to parse response")).

(** The three handlers [chatStream] passes to the transport. *)
Definition handle (cb : StreamCallbacks) (d : delivery) : M unit :=
  match d with
  | Start => cb_onStart cb
  | Failure e => cb_onError cb e
  | Data rawData => onData cb rawData
  end.

(** [await this.sseClient.startConnection(config, handlers)]: the
    connection attempt, the transport's calls of the handlers, then the
    promise settles. *)
Definition startConnection (this : provider) (config : sse_config)
    (handlers : delivery → M unit) : M unit :=
  emit (StartConnection config);;
  let conn := sseClient this config in
  for_of (deliveries conn) handlers;;
  match rejection conn with
  | Some e => throw e
  | None => mret ()
  end.

(** [chatStream(model, messages, cb, _opts)]. *)
Definition chatStream (this : provider) (model : string) (messages : list LlmMessage)
    (cb : StreamCallbacks) (_opts : list (string * value)) : M unit :=
  let apiKey := getApiKey this (Some model) in
  if negb (key_present apiKey) then cb_onError cb (Error "NO_KEY")
  else
    let key := default EmptyString apiKey in
    set_lastContentLength 0;;
    processedChunks_clear;;
    set_currentResponseId VNull;;
    try_catch
      (startConnection this (stream_config this model key messages) (handle cb))
      (λ error, cb_onError cb error).

(** What a run leaves behind. *)
Definition trace_of {A} (r : outcome A * provider_state * list effect) : list effect := r.2.
Definition state_of {A} (r : outcome A * provider_state * list effect) : provider_state := r.1.2.
Definition result_of {A} (r : outcome A * provider_state * list effect) : outcome A := r.1.1.

(** ** Observations on a run *)

Definition is_terminal (e : effect) : bool :=
  match e with OnComplete | OnError _ => true | _ => false end.

Definition is_token (e : effect) : bool :=
  match e with OnToken _ => true | _ => false end.

Definition is_attempt (e : effect) : bool :=
  match e with StartConnection _ => true | _ => false end.

(** How many terminal callbacks (on-complete, on-error) a trace holds, and
    how many connection attempts. *)
Definition terminal_count (tr : list effect) : nat := length (List.filter is_terminal tr).
Definition attempt_count (tr : list effect) : nat := length (List.filter is_attempt tr).

(** The calls of the caller's callbacks in a trace. *)
Definition callbacks (tr : list effect) : list effect :=
  List.filter (λ e, negb (is_attempt e)) tr.

(** No on-token call comes after a terminal callback. *)
Fixpoint tokens_before_terminals (tr : list effect) : bool :=
  match tr with
  | [] => true
  | e :: rest =>
      (if is_terminal e then forallb (λ x, negb (is_token x)) rest else true)
      && tokens_before_terminals rest
  end.

(** What the spec asks of the callbacks of one exchange. *)
Definition single_terminal (tr : list effect) : Prop :=
  terminal_count tr = 1 ∧ tokens_before_terminals tr = true.

(** The transport's calls of the handlers, one after the other. *)
Definition deliver (cb : StreamCallbacks) (ds : list delivery) : M unit :=
  for_of ds (handle cb).

(** The fingerprint the handler computes for a chunk that arrives in state
    [st], when it gets as far as computing one. *)
Definition fingerprint (rawData : string) (st : provider_state) : option string :=
  parsedData ← JSON_parse rawData;
  match (track_response_id parsedData;; chunk_key parsedData) st with
  | (Returned k, _, _) => Some k
  | _ => None
  end.

(** The chunk carries a response id and another one is being tracked: the
    guard under which the handler forgets the fingerprints. *)
Definition resets (rawData : string) (st : provider_state) : bool :=
  match JSON_parse rawData with
  | Some parsedData =>
      match get parsedData "responseId" with
      | Some responseId =>
          truthy responseId && truthy (currentResponseId st)
          && strict_neq (currentResponseId st) responseId
      | None => false
      end
  | None => false
  end.

(** No chunk of the sequence, handled from [st] on, meets that guard. *)
Fixpoint no_reset (cb : StreamCallbacks) (chunks : list string) (st : provider_state) : bool :=
  match chunks with
  | [] => true
  | rawData :: rest =>
      negb (resets rawData st) && no_reset cb rest (state_of (onData cb rawData st))
  end.

(** The state once the chunks of a sequence have been handled, from [st]
    on. *)
Fixpoint after_chunks (cb : StreamCallbacks) (chunks : list string) (st : provider_state)
    : provider_state :=
  match chunks with
  | [] => st
  | rawData :: rest => after_chunks cb rest (state_of (onData cb rawData st))
  end.

(** For each chunk of a sequence handled from [st] on: its fingerprint and
    the callbacks it fired. *)
Fixpoint chunk_log (cb : StreamCallbacks) (chunks : list string) (st : provider_state)
    : list (option string * list effect) :=
  match chunks with
  | [] => []
  | rawData :: rest =>
      (fingerprint rawData st, trace_of (onData cb rawData st))
      :: chunk_log cb rest (state_of (onData cb rawData st))
  end.

(** The chunks of a log that have fingerprint [k] and fired an on-token. *)
Definition emitting (k : string) (log : list (option string * list effect))
    : list (option string * list effect) :=
  List.filter (λ entry, bool_decide (entry.1 = Some k) && existsb is_token entry.2) log.

(** The count the fingerprint keeps of a first text [t], that is
    [t?.length || 0], where it is a count: the length of a string (or of
    an array), zero when the text is absent or has no length. *)
Definition text_length (t : value) : option nat :=
  match t with
  | VStr s => Some (String.length s)
  | VArr elems => Some (length elems)
  | VObj _ => None
  | VUndefined | VNull | VBool _ | VNum _ => Some 0
  end.

(** The first candidate of the chunk has parts, and the first of them has
    the text [t]. *)
Definition carries_text (parsedData : value) (t : string) : Prop :=
  ∃ candidate others candidate_content part more,
    get parsedData "candidates" = Some (VArr (candidate :: others)) ∧
    get candidate "content" = Some candidate_content ∧
    get_opt candidate_content "parts" = VArr (part :: more) ∧
    get part "text" = Some (VStr t).

(** The state the check of the response id leaves. *)
Definition tracked (parsedData : value) (st : provider_state) : provider_state :=
  state_of (track_response_id parsedData st).

(** The text the fingerprint looks at:
    [parsedData.candidates?.[0]?.content?.parts?.[0]?.text]. *)
Definition first_text (parsedData : value) : value :=
  get_opt (first_opt (get_opt (get_opt (first_opt (get_opt parsedData "candidates"))
    "content") "parts")) "text".

End Adapter.
Global Arguments value : clear implicits.
Global Arguments effect : clear implicits.
Global Arguments provider_state : clear implicits.
Global Arguments M : clear implicits.
Global Arguments JsonParser : clear implicits.

(** ** Running the adapter on wire text: numbers and [JSON.parse]

    An implementation of the two platform interfaces, used by the runs on
    concrete chunks below.  A number is kept as the decimal its literal
    denotes, [mant * 10 ^ expo]: exact where a double is (the integers
    and short decimal fractions of the runs), without the rounding,
    overflow and exponent notation of doubles elsewhere. *)
Module Json.

Local Open Scope Z_scope.

Record dec := Dec { mant : Z; expo : Z }.

(** Drop up to [n] trailing zeros of the fraction. *)
Fixpoint normalize (n : nat) (d : dec) : dec :=
  match n with
  | O => d
  | S n' =>
      if (expo d <? 0) && (mant d mod 10 =? 0)
      then normalize n' (Dec (mant d / 10) (expo d + 1))
      else d
  end.

Definition dec_eqb (a b : dec) : bool :=
  let e := Z.min (expo a) (expo b) in
  mant a * 10 ^ (expo a - e) =? mant b * 10 ^ (expo b - e).

(** [k] decimal digits of [n], zero-padded. *)
Fixpoint digits (k : nat) (n : Z) : string :=
  match k with
  | O => EmptyString
  | S k' => digits k' (n / 10) +:+ pretty (n mod 10)
  end.

Definition dec_to_string (d : dec) : string :=
  let d := normalize (Z.to_nat (- expo d)) d in
  if 0 <=? expo d then pretty (mant d * 10 ^ expo d)
  else
    let scale := 10 ^ (- expo d) in
    (if mant d <? 0 then "-" else EmptyString) +:+
    pretty (Z.abs (mant d) / scale) +:+ "." +:+
    digits (Z.to_nat (- expo d)) (Z.abs (mant d) mod scale).

Definition is_ws (c : ascii) : bool :=
  Ascii.eqb c " " || Ascii.eqb c "009" || Ascii.eqb c "010" || Ascii.eqb c "013".

Fixpoint skip_ws (s : string) : string :=
  match s with
  | String c rest => if is_ws c then skip_ws rest else s
  | EmptyString => s
  end.

Definition digit_of (c : ascii) : option Z :=
  let n := Z.of_nat (nat_of_ascii c) in
  if (48 <=? n) && (n <=? 57) then Some (n - 48) else None.

(** A maximal run of digits: its value on top of [acc], how many there
    were, and the rest. *)
Fixpoint read_digits (s : string) (acc : Z) (count : Z) : Z * Z * string :=
  match s with
  | String c rest =>
      match digit_of c with
      | Some d => read_digits rest (acc * 10 + d) (count + 1)
      | None => (acc, count, s)
      end
  | EmptyString => (acc, count, s)
  end.

(** A JSON number: an optional minus, an integer part without a leading
    zero, an optional fraction, an optional exponent. *)
Definition read_number (s : string) : option (dec * string) :=
  let '(negative, s) :=
    match s with
    | String c rest => if Ascii.eqb c "-" then (true, rest) else (false, s)
    | _ => (false, s)
    end in
  '(int, s) ←
    match s with
    | String c rest =>
        if Ascii.eqb c "0" then Some (0, rest)
        else match digit_of c with
             | Some _ => let '(n, _, rest') := read_digits s 0 0 in Some (n, rest')
             | None => None
             end
    | EmptyString => None
    end;
  '(m, frac_len, s) ←
    match s with
    | String c rest =>
        if Ascii.eqb c "." then
          let '(n, k, rest') := read_digits rest int 0 in
          if k =? 0 then None else Some (n, k, rest')
        else Some (int, 0, s)
    | EmptyString => Some (int, 0, s)
    end;
  '(e, s) ←
    match s with
    | String c rest =>
        if Ascii.eqb c "e" || Ascii.eqb c "E" then
          let '(minus, rest) :=
            match rest with
            | String c' rest' =>
                if Ascii.eqb c' "-" then (true, rest')
                else if Ascii.eqb c' "+" then (false, rest')
                else (false, rest)
            | _ => (false, rest)
            end in
          let '(n, k, rest') := read_digits rest 0 0 in
          if k =? 0 then None else Some (if minus then - n else n, rest')
        else Some (0, s)
    | EmptyString => Some (0, s)
    end;
  Some (Dec (if (negative : bool) then - m else m) (e - frac_len), s).

(** [StringToNumber(s) > 0] for decimal text in JSON's shape, possibly
    signed and surrounded by blanks, and for [Infinity]; the other
    numeric texts of JavaScript (hexadecimal, a bare leading or trailing
    point) count as not a number here. *)
Definition dec_string_gt_zero (s : string) : bool :=
  let s := skip_ws s in
  let s := match s with
           | String c rest => if Ascii.eqb c "+" then rest else s
           | _ => s
           end in
  if String.eqb (String.rev (skip_ws (String.rev s))) "Infinity" then true
  else match read_number s with
       | Some (d, rest) => String.eqb (skip_ws rest) EmptyString && (0 <? mant d)
       | None => false
       end.

#[export] Instance dec_number : JsNumber dec := {|
  num_of_nat n := Dec (Z.of_nat n) 0;
  num_is_zero d := mant d =? 0;
  num_eqb := dec_eqb;
  num_gt_zero d := 0 <? mant d;
  num_to_string := dec_to_string;
  string_gt_zero := dec_string_gt_zero;
  num_is_zero_of_nat n :=
    ltac:(cbn; case_bool_decide; [apply Z.eqb_eq | apply Z.eqb_neq]; lia);
  num_gt_zero_of_nat n :=
    ltac:(cbn; case_bool_decide; [apply Z.ltb_lt | apply Z.ltb_ge]; lia)
|}.

(** The double quote. *)
Definition quote : ascii := "034".

Definition hex_of (c : ascii) : option Z :=
  let n := Z.of_nat (nat_of_ascii c) in
  if (48 <=? n) && (n <=? 57) then Some (n - 48)
  else if (65 <=? n) && (n <=? 70) then Some (n - 55)
  else if (97 <=? n) && (n <=? 102) then Some (n - 87)
  else None.

(** The character of a one-letter escape. *)
Definition escape_of (c : ascii) : option ascii :=
  if Ascii.eqb c quote then Some quote
  else if Ascii.eqb c "\" then Some "\"%char
  else if Ascii.eqb c "/" then Some "/"%char
  else if Ascii.eqb c "b" then Some "008"%char
  else if Ascii.eqb c "f" then Some "012"%char
  else if Ascii.eqb c "n" then Some "010"%char
  else if Ascii.eqb c "r" then Some "013"%char
  else if Ascii.eqb c "t" then Some "009"%char
  else None.

(** The text of a string literal, from behind its opening quote.  A raw
    control character ends the parse; an escape [\uXXXX] is read when the
    code unit it names is one of the 256 characters of the model. *)
Fixpoint read_string (s : string) : option (string * string) :=
  match s with
  | EmptyString => None
  | String c rest =>
      if Ascii.eqb c quote then Some (EmptyString, rest)
      else if Ascii.eqb c "\" then
        match rest with
        | String e rest1 =>
            if Ascii.eqb e "u" then
              match rest1 with
              | String h1 (String h2 (String h3 (String h4 rest2))) =>
                  a ← hex_of h1; b ← hex_of h2; c ← hex_of h3; d ← hex_of h4;
                  let code := ((a * 16 + b) * 16 + c) * 16 + d in
                  if code <? 256 then
                    '(t, r) ← read_string rest2;
                    Some (String (ascii_of_nat (Z.to_nat code)) t, r)
                  else None
              | _ => None
              end
            else
              x ← escape_of e;
              '(t, r) ← read_string rest1;
              Some (String x t, r)
        | EmptyString => None
        end
      else if (Z.of_nat (nat_of_ascii c) <? 32) then None
      else
        '(t, r) ← read_string rest;
        Some (String c t, r)
  end.

(** [s] begins with [word]: what follows it. *)
Fixpoint after (word s : string) : option string :=
  match word, s with
  | EmptyString, _ => Some s
  | String a word', String b s' => if Ascii.eqb a b then after word' s' else None
  | _, EmptyString => None
  end.

(** One JSON value at the head of [s], blanks before it skipped, and the
    rest of [s].  Every call of the three readers is at most two calls
    away from one that consumes a character, so fuel of twice the length
    and two more is never used up. *)
Fixpoint read_value (fuel : nat) (s : string) : option (value dec * string) :=
  match fuel with
  | O => None
  | S fuel =>
      match skip_ws s with
      | EmptyString => None
      | String c rest as s1 =>
          if Ascii.eqb c "{" then
            match skip_ws rest with
            | String c' rest' as s2 =>
                if Ascii.eqb c' "}" then Some (VObj [], rest')
                else '(ms, r) ← read_members fuel s2; Some (VObj ms, r)
            | EmptyString => None
            end
          else if Ascii.eqb c "[" then
            match skip_ws rest with
            | String c' rest' as s2 =>
                if Ascii.eqb c' "]" then Some (VArr [], rest')
                else '(vs, r) ← read_elements fuel s2; Some (VArr vs, r)
            | EmptyString => None
            end
          else if Ascii.eqb c quote then
            '(t, r) ← read_string rest; Some (VStr t, r)
          else
            match after "true" s1, after "false" s1, after "null" s1 with
            | Some r, _, _ => Some (VBool true, r)
            | _, Some r, _ => Some (VBool false, r)
            | _, _, Some r => Some (VNull, r)
            | _, _, _ => '(d, r) ← read_number s1; Some (VNum d, r)
            end
      end
  end
with read_members (fuel : nat) (s : string) : option (list (string * value dec) * string) :=
  match fuel with
  | O => None
  | S fuel =>
      match skip_ws s with
      | String c rest =>
          if Ascii.eqb c quote then
            '(k, r1) ← read_string rest;
            match skip_ws r1 with
            | String c1 r2 =>
                if Ascii.eqb c1 ":" then
                  '(v, r3) ← read_value fuel r2;
                  match skip_ws r3 with
                  | String c3 r4 =>
                      if Ascii.eqb c3 "," then
                        '(ms, r5) ← read_members fuel r4; Some ((k, v) :: ms, r5)
                      else if Ascii.eqb c3 "}" then Some ([(k, v)], r4)
                      else None
                  | EmptyString => None
                  end
                else None
            | EmptyString => None
            end
          else None
      | EmptyString => None
      end
  end
with read_elements (fuel : nat) (s : string) : option (list (value dec) * string) :=
  match fuel with
  | O => None
  | S fuel =>
      '(v, r1) ← read_value fuel s;
      match skip_ws r1 with
      | String c r2 =>
          if Ascii.eqb c "," then
            '(vs, r3) ← read_elements fuel r2; Some (v :: vs, r3)
          else if Ascii.eqb c "]" then Some ([v], r2)
          else None
      | EmptyString => None
      end
  end.

(** [JSON.parse(text)]: one value and nothing but blanks after it. *)
Definition parse (text : string) : option (value dec) :=
  '(v, rest) ← read_value (2 * String.length text + 2) text;
  if String.eqb (skip_ws rest) EmptyString then Some v else None.

#[export] Instance json_parser : JsonParser dec := parse.

(** The chunks of the runs below are written with an apostrophe where the
    wire has a double quote; [wire] puts the double quotes back. *)
Fixpoint wire (s : string) : string :=
  match s with
  | EmptyString => EmptyString
  | String c rest => String (if Ascii.eqb c "'" then quote else c) (wire rest)
  end.

End Json.

(** ** The exchange of the end-to-end scenarios *)
Module Scenario.
Import Json.

Definition model : string := "gemini-pro".

Definition messages : list LlmMessage := [ {| role := "user"; content := "Hi" |} ].

Definition chunk_Hel : string :=
  wire "{'responseId':'r1','candidates':[{'content':{'parts':[{'text':'Hel'}]}}]}".

Definition chunk_lo : string :=
  wire "{'responseId':'r1','candidates':[{'content':{'parts':[{'text':'lo'}]},'finishReason':'STOP'}]}".

(** A third chunk of the same response, with a stop reason of its own. *)
Definition chunk_again : string :=
  wire "{'responseId':'r1','candidates':[{'content':{'parts':[{'text':'!!!!'}]},'finishReason':'STOP'}]}".

(** A last chunk that stops for another reason than [STOP]. *)
Definition chunk_cut_short : string :=
  wire "{'responseId':'r1','candidates':[{'content':{'parts':[{'text':'lo'}]},'finishReason':'MAX_TOKENS'}]}".

(** A chunk of another response. *)
Definition chunk_r2 : string :=
  wire "{'responseId':'r2','candidates':[{'content':{'parts':[{'text':'x'}]}}]}".

(** A chunk without a response id, and one whose id reads [null]. *)
Definition chunk_anonymous : string :=
  wire "{'candidates':[{'content':{'parts':[{'text':'Hel'}]}}]}".

Definition chunk_null_id : string :=
  wire "{'responseId':'null','candidates':[{'content':{'parts':[{'text':'abc'}]}}]}".

(** Same response id and text length as [chunk_Hel], another text, a stop
    reason and a block reason. *)
Definition chunk_same_length : string :=
  wire "{'responseId':'r1','candidates':[{'content':{'parts':[{'text':'abc'}]},'finishReason':'STOP'}],'promptFeedback':{'blockReason':'SAFETY'}}".

(** Two chunks that are not JSON. *)
Definition chunk_cut : string := wire "{'responseId':'r1','candidates':[{'content".

Definition chunk_noise : string := "data: [DONE]".

(** A transport stub that makes the given calls whatever the request, and
    an adapter on top of it. *)
Definition stub (key : option string) (ds : list delivery) : provider :=
  {| baseUrl := "https://generativelanguage.googleapis.com/v1beta/";
     getApiKey := λ _, key;
     sseClient := λ _, {| deliveries := ds; rejection := None |} |}.

(** The state [chatStream] sets up before it connects. *)
Definition fresh : provider_state dec := initial_state.

(** One chunk with two text parts. *)
Definition chunk_two_parts : string :=
  wire "{'responseId':'r1','candidates':[{'content':{'parts':[{'text':'Hel'},{'text':'lo'}]}}]}".

(** What [JSON.parse] makes of some of the chunks. *)
Definition parsed_Hel : value dec :=
  VObj [("responseId", VStr "r1");
        ("candidates",
         VArr [VObj [("content", VObj [("parts", VArr [VObj [("text", VStr "Hel")]])])]])].

Definition parsed_anonymous : value dec :=
  VObj [("candidates",
         VArr [VObj [("content", VObj [("parts", VArr [VObj [("text", VStr "Hel")]])])]])].

Definition parsed_r2 : value dec :=
  VObj [("responseId", VStr "r2");
        ("candidates",
         VArr [VObj [("content", VObj [("parts", VArr [VObj [("text", VStr "x")]])])]])].

Definition parsed_null_id : value dec :=
  VObj [("responseId", VStr "null");
        ("candidates",
         VArr [VObj [("content", VObj [("parts", VArr [VObj [("text", VStr "abc")]])])]])].

Definition parsed_same_length : value dec :=
  VObj [("responseId", VStr "r1");
        ("candidates",
         VArr [VObj [("content", VObj [("parts", VArr [VObj [("text", VStr "abc")]])]);
                     ("finishReason", VStr "STOP")]]);
        ("promptFeedback", VObj [("blockReason", VStr "SAFETY")])].

(** The state once the chunk without a response id has been handled, and
    once the first chunk of the scenario has. *)
Definition after_anonymous : provider_state dec :=
  state_of (onData all_callbacks chunk_anonymous fresh).

Definition after_Hel : provider_state dec :=
  state_of (onData all_callbacks chunk_Hel fresh).

(** The exchange of the scenario over a stub with a key, as the caller
    sees it. *)
Definition exchange (ds : list delivery) : list (effect dec) :=
  callbacks (trace_of (chatStream (stub (Some "key") ds) model messages
                         all_callbacks [] fresh)).

End Scenario.

(** ** The rest of GoogleAIProvider *)

(** Modelled from the spec: an entry of the static catalog that
    [getStaticModels] (of [provider/staticModels], not among the adapter's
    sources) returns, an id and a label. *)
Record StaticModel := { static_id : string; static_label : option string }.

(** An entry of the list [fetchModels] returns: [{name, label, aliases}]. *)
Record ModelInfo := {
  info_name : string;
  info_label : option string;
  info_aliases : list string
}.

(** [fetchModels()]: the static catalog of ['Google AI'], entry by entry;
    [None] is [null] (or the [undefined] of the catalog). *)
Definition fetchModels (getStaticModels : string → option (list StaticModel))
    : option (list ModelInfo) :=
  match getStaticModels "Google AI" with
  | Some list =>
      Some (map (λ m, {| info_name := static_id m;
                         info_label := static_label m;
                         info_aliases := [static_id m] |}) list)
  | None => None
  end.

(** The calls the adapter makes on its transport outside of
    [startConnection]. *)
Inductive transport_call : Type :=
  | SseDestroy           (* this.sseClient.destroy() *)
  | SseStopConnection.   (* this.sseClient.stopConnection() *)

Section Lifecycle.
Context {num : Type} `{!JsNumber num} `{!JsonParser num}.

(** [destroy()]: the three fields go back to their first values, then the
    transport is destroyed. *)
Definition destroy (st : provider_state num) : provider_state num * list transport_call :=
  ({| lastContentLength := 0; processedChunks := ∅; currentResponseId := VNull |},
   [SseDestroy]).

(** [cancelStream()]: the transport is told to stop; no field is written. *)
Definition cancelStream (st : provider_state num) : provider_state num * list transport_call :=
  (st, [SseStopConnection]).

(** The first candidate that the handler looks at, when the candidates
    are an array that has one. *)
Definition first_candidate (parsedData : value num) : option (value num) :=
  match get parsedData "candidates" with
  | Some (VArr (candidate :: _)) => Some candidate
  | _ => None
  end.

(** The parts the handler walks through in a candidate. *)
Definition content_parts (candidate : value num) : list (value num) :=
  match get candidate "content" with
  | Some candidate_content =>
      match get_opt candidate_content "parts" with
      | VArr content_parts => content_parts
      | _ => []
      end
  | None => []
  end.

(** The on-token calls for a list of texts: one for each text that is not
    empty, in order. *)
Definition token_calls (cb : StreamCallbacks) (texts : list string) : list (effect num) :=
  if onToken cb
  then map (λ t, OnToken (VStr t)) (List.filter (λ t, negb (String.eqb t EmptyString)) texts)
  else [].

(** The on-complete call for a finish reason. *)
Definition complete_call (cb : StreamCallbacks) (finishReason : value num) : list (effect num) :=
  if is_string finishReason "STOP" && onComplete cb then [OnComplete] else [].

(** The on-error call for a block reason that is a text, or missing. *)
Definition blocked_call (cb : StreamCallbacks) (blockReason : option string)
    : list (effect num) :=
  match blockReason with
  | Some r =>
      if negb (String.eqb r EmptyString) && onError cb
      then [OnError (Error ("Content blocked: " +:+ r))] else []
  | None => []
  end.

(** The block reason of a chunk as a text: [Some None] when there is none
    (a falsy one), [None] when it is neither. *)
Definition block_reason (parsedData : value num) : option (option string) :=
  match get parsedData "promptFeedback" with
  | Some promptFeedback =>
      match get_opt promptFeedback "blockReason" with
      | VStr r => Some (Some r)
      | b => if truthy b then None else Some None
      end
  | None => None
  end.

(** The chunks among the transport's calls. *)
Definition data_count (ds : list delivery) : nat :=
  length (List.filter (λ d, match d with Data _ => true | _ => false end) ds).

End Lifecycle.

(** ** [mapToProviderWithStatus] of [lib/provider/transform.ts] *)
Module Transform.

Local Open Scope nat_scope.

(** Modelled from the spec: the enum [ProviderStatus] of [./types] (not
    among the sources).  The five members are those the function names;
    [OtherStatus] stands for any further member or stray value. *)
Inductive ProviderStatus : Type :=
  | CONNECTED
  | NOT_CONNECTED
  | NO_KEY
  | CONNECTING
  | UNKNOWN
  | OtherStatus (tag : string).

(** [a === b] on two statuses. *)
Definition status_eqb (a b : ProviderStatus) : bool :=
  match a, b with
  | CONNECTED, CONNECTED | NOT_CONNECTED, NOT_CONNECTED | NO_KEY, NO_KEY
  | CONNECTING, CONNECTING | UNKNOWN, UNKNOWN => true
  | OtherStatus x, OtherStatus y => String.eqb x y
  | _, _ => false
  end.

(** Modelled from the spec: [ModelEntity] of [./types], with the members
    the function reads; [None] is a member that is missing ([undefined]
    or, for the key, [null]). *)
Record ModelEntity := {
  model_name : string;
  model_aliases : list string;
  model_label : option string;
  model_apiKey : option string
}.

(** Modelled from the spec: [ProviderEntity] of [./types] with its
    optional [models], and the two members read through [any],
    [lastReason] and [lastMessage], each a text or missing ([None]). *)
Record ProviderEntity := {
  name : string;
  url : string;
  requiresKey : bool;
  apiKey : option string;
  status : ProviderStatus;
  models : option (list ModelEntity);
  lastReason : option string;
  lastMessage : option string
}.

(** An entry of [models] in the result. *)
Record ModelWithKey := {
  mk_name : string;
  mk_aliases : list string;
  mk_label : option string;
  api_key : option string
}.

(** Modelled from the spec: [ProviderWithStatus] of
    [@/hooks/useProviderManagement], with the members the function
    fills in; the two health check paths are [undefined], here [None]. *)
Record ProviderWithStatus := {
  pw_name : string;
  pw_aliases : list string;
  icon : string;
  api_base_url : string;
  requiresApiKey : bool;
  default_api_key : option string;
  pw_models : list ModelWithKey;
  isConnected : bool;
  displayStatus : string;
  statusTooltip : option string;
  healthCheckPath : option string;
  authenticatedHealthCheckPath : option string
}.

(** [toLowerCase] on one code unit of the model's alphabet: the letters A
    to Z, and the capital letters from U+00C0 to U+00DE but the
    multiplication sign, go 32 up. *)
Definition lower_char (c : ascii) : ascii :=
  let n := nat_of_ascii c in
  if ((65 <=? n) && (n <=? 90)) || ((192 <=? n) && (n <=? 222) && negb (n =? 215))
  then ascii_of_nat (n + 32) else c.

Fixpoint toLowerCase (s : string) : string :=
  match s with
  | EmptyString => EmptyString
  | String c rest => String (lower_char c) (toLowerCase rest)
  end.

(** The class [\s] within the model's alphabet: tab, line feed, vertical
    tab, form feed, carriage return, space, no-break space. *)
Definition is_space (c : ascii) : bool :=
  let n := nat_of_ascii c in
  ((9 <=? n) && (n <=? 13)) || (n =? 32) || (n =? 160).

(** [s.replace(/\s+/g, '-')]: every run of blanks becomes one dash;
    [in_run] says that the character before was a blank. *)
Fixpoint dash_runs (in_run : bool) (s : string) : string :=
  match s with
  | EmptyString => EmptyString
  | String c rest =>
      if is_space c
      then if in_run then dash_runs true rest else String "-" (dash_runs true rest)
      else String c (dash_runs false rest)
  end.

Definition replace_spaces (s : string) : string := dash_runs false s.

(** The immediately invoked function of [displayStatus]. *)
Definition display_status (s : ProviderStatus) : string :=
  match s with
  | CONNECTED => "CONNECTED"
  | NOT_CONNECTED => "NOT_CONNECTED"
  | NO_KEY => "NO_KEY"
  | CONNECTING => "CONNECTING"
  | UNKNOWN | OtherStatus _ => "UNKNOWN"
  end.

(** The texts of the tooltips, as the bytes of the source. *)
Definition tip_no_key : string := "未配置 API 密钥".
Definition tip_auth : string := "鉴权失败，请检查 API Key".
Definition tip_network : string := "网络异常或服务不可达".
Definition tip_timeout : string := "连接超时，请稍后重试".
Definition tip_failed : string := "连接失败".

(** [x || null] on a text that may be missing: the empty text is falsy. *)
Definition or_null (x : option string) : option string :=
  match x with
  | Some k => if String.eqb k EmptyString then None else Some k
  | None => None
  end.

(** The immediately invoked function of [statusTooltip]. *)
Definition status_tooltip (entity : ProviderEntity) : option string :=
  if status_eqb (status entity) NO_KEY then Some tip_no_key
  else if status_eqb (status entity) NOT_CONNECTED then
    match lastReason entity with
    | Some r =>
        if String.eqb r "AUTH" then Some tip_auth
        else if String.eqb r "NETWORK" then Some tip_network
        else if String.eqb r "TIMEOUT" then Some tip_timeout
        else Some (default tip_failed (or_null (lastMessage entity)))
    | None => Some (default tip_failed (or_null (lastMessage entity)))
    end
  else None.

Definition mapToProviderWithStatus (entity : ProviderEntity) : ProviderWithStatus :=
  {| pw_name := name entity;
     pw_aliases := [name entity];
     icon := "/llm-provider-icon/" +:+ replace_spaces (toLowerCase (name entity)) +:+ ".svg";
     api_base_url := url entity;
     requiresApiKey := requiresKey entity;
     default_api_key := or_null (apiKey entity);
     pw_models :=
       map (λ m, {| mk_name := model_name m;
                    mk_aliases := model_aliases m;
                    mk_label := model_label m;
                    api_key := model_apiKey m |})
           (default [] (models entity));
     isConnected := status_eqb (status entity) CONNECTED;
     displayStatus := display_status (status entity);
     statusTooltip := status_tooltip entity;
     healthCheckPath := None;
     authenticatedHealthCheckPath := None |}.




End Transform.

(** ** The logic of [AddDocumentsDialog] *)
Module Dialog.

(** Modelled from the spec: [UnifiedFile] of [@/lib/unifiedFileService]
    (not among the sources), with the members the dialog reads; [None] is
    a member that is missing. *)
Record UnifiedFile := {
  uf_id : string;
  uf_name : string;
  uf_source : option string;
  knowledgeBaseId : option string
}.

(** Modelled from the spec: an entry of what [getChatAttachedFiles] of the
    message repository returns. *)
Record ChatFile := { conversation_id : string; fileName : string }.

Inductive file_type : Type := document | chat.

(** [DisplayFile]. *)
Record DisplayFile := {
  id : string;
  name : string;
  type : file_type;
  source : option string;
  conversationId : option string;
  isAlreadyInKB : bool
}.

(** [!x] is false on a text that may be missing. *)
Definition present (x : option string) : bool :=
  match x with
  | Some k => negb (String.eqb k EmptyString)
  | None => false
  end.

(** [f.source !== 'chat']. *)
Definition not_chat (f : UnifiedFile) : bool :=
  match uf_source f with
  | Some src => negb (String.eqb src "chat")
  | None => true
  end.

(** [!f.knowledgeBaseId || f.knowledgeBaseId !== knowledgeBase.id]. *)
Definition outside (kb : string) (f : UnifiedFile) : bool :=
  negb (present (knowledgeBaseId f))
  || match knowledgeBaseId f with
     | Some k => negb (String.eqb k kb)
     | None => true
     end.

(** The entries pushed for the documents. *)
Definition document_entries (kb : string) (unifiedFiles : list UnifiedFile)
    : list DisplayFile :=
  map (λ file, {| id := uf_id file;
                  name := uf_name file;
                  type := document;
                  source := uf_source file;
                  conversationId := None;
                  isAlreadyInKB := present (knowledgeBaseId file) |})
      (List.filter (outside kb) (List.filter not_chat unifiedFiles)).

(** The entries pushed for the chat files, from position [index] on. *)
Fixpoint chat_entries (index : nat) (chatFileData : list ChatFile) : list DisplayFile :=
  match chatFileData with
  | [] => []
  | file :: rest =>
      {| id := "chat_" +:+ conversation_id file +:+ "_" +:+ pretty index;
         name := fileName file;
         type := chat;
         source := None;
         conversationId := Some (conversation_id file);
         isAlreadyInKB := false |}
      :: chat_entries (S index) rest
  end.

(** The list that [loadAllFiles] hands to [setFiles].  Each of the two
    loads sits in a [try] of its own: [None] is a load that threw. *)
Definition loaded_files (kb : string) (unifiedFiles : option (list UnifiedFile))
    (chatFileData : option (list ChatFile)) : list DisplayFile :=
  match unifiedFiles with
  | Some l => document_entries kb l
  | None => []
  end
  ++ match chatFileData with
     | Some l => chat_entries 0 l
     | None => []
     end.

(** The selection, a [Set] of ids: its members in the order they were
    added, which is the order [Array.from] lists them in. *)
Definition selection : Type := list string.

Definition has (s : selection) (x : string) : bool :=
  existsb (String.eqb x) s.

(** [toggle(id)]: a copy of the set without the id if it has it, with the
    id added last if not. *)
Definition toggle (x : string) (prev : selection) : selection :=
  if has prev x then List.filter (λ y, negb (String.eqb x y)) prev else prev ++ [x].

Section Confirm.
(** The numbers the knowledge service reports as progress. *)
Context {number : Type}.

Inductive toast : Type := toast_error | toast_warning | toast_success.

(** What the progress bar is set to: 0, 100, or
    [Math.min(99, Math.round((i / n) * 100 + p / n))], kept as the three
    numbers it is made of. *)
Inductive progress : Type :=
  | Percent0
  | Percent100
  | Partial (i n : nat) (p : number).

(** What [handleConfirm] does, call by call. *)
Inductive action : Type :=
  | SetAdding (b : bool)
  | SetProgress (p : progress)
  | SetProgressMessage (m : string)
  | SetSelected (s : selection)
  | Toast (kind : toast) (m : string)
  | AddDocument (documentId knowledgeBaseId : string)
  | OnSuccess
  | OnOpenChange (o : bool).

(** Modelled from the spec: what one call of
    [KnowledgeService.addDocumentToKnowledgeBase] does: the progress it
    reports through [onProgress], then whether its promise resolves. *)
Record added := { reports : list (number * string); resolved : bool }.

(** The body of the [for] loop from index [i] on, with [n] the number of
    selected ids: the calls made, and whether the loop came to its end. *)
Fixpoint add_selected (service : string → string → added) (kb : string)
    (files : list DisplayFile) (n i : nat) (selectedIds : list string)
    : list action * bool :=
  match selectedIds with
  | [] => ([], true)
  | selectedId :: rest =>
      match List.find (λ f, String.eqb (id f) selectedId) files with
      | None => add_selected service kb files n (S i) rest
      | Some file =>
          let announce := SetProgressMessage ("正在处理: " +:+ name file) in
          match type file with
          | chat =>
              let '(calls, finished) := add_selected service kb files n (S i) rest in
              (announce
               :: Toast toast_warning ("聊天文件 " +:+ name file +:+ " 暂时无法添加到知识库")
               :: calls, finished)
          | document =>
              let result := service selectedId kb in
              let reported :=
                flat_map (λ '(p, msg), [SetProgress (Partial i n p); SetProgressMessage msg])
                         (reports result) in
              if resolved result then
                let '(calls, finished) := add_selected service kb files n (S i) rest in
                (announce :: AddDocument selectedId kb :: reported ++ calls, finished)
              else (announce :: AddDocument selectedId kb :: reported, false)
          end
      end
  end.

(** The [finally] block. *)
Definition reset_calls : list action :=
  [SetAdding false; SetProgress Percent0; SetProgressMessage EmptyString; SetSelected []].

(** What follows the loop: the rest of the [try] block if the loop came
    to its end, the [catch] block if a call of the service failed. *)
Definition closing_calls (onSuccess finished : bool) : list action :=
  if finished
  then [SetProgress Percent100; SetProgressMessage "完成";
        Toast toast_success "文档已成功添加并索引"]
       ++ (if onSuccess then [OnSuccess] else [])
       ++ [OnOpenChange false]
  else [Toast toast_error "添加过程出错"].

(** [handleConfirm()], for the files and the selection of the render it
    was made in. *)
Definition handleConfirm (service : string → string → added) (kb : string)
    (onSuccess : bool) (files : list DisplayFile) (selected : selection) : list action :=
  match selected with
  | [] => [Toast toast_error "请选择文件"]
  | _ =>
      let '(calls, finished) :=
        add_selected service kb files (length selected) 0 selected in
      SetAdding true :: calls ++ closing_calls onSuccess finished ++ reset_calls
  end.

(** The four pieces of state that [handleConfirm] sets. *)
Record confirm_state := {
  adding : bool;
  shown_progress : progress;
  progressMessage : string;
  selected_ids : selection
}.

(** The state after a call, and after a list of calls. *)
Definition set_state (st : confirm_state) (a : action) : confirm_state :=
  match a with
  | SetAdding b =>
      {| adding := b; shown_progress := shown_progress st;
         progressMessage := progressMessage st; selected_ids := selected_ids st |}
  | SetProgress p =>
      {| adding := adding st; shown_progress := p;
         progressMessage := progressMessage st; selected_ids := selected_ids st |}
  | SetProgressMessage m =>
      {| adding := adding st; shown_progress := shown_progress st;
         progressMessage := m; selected_ids := selected_ids st |}
  | SetSelected s =>
      {| adding := adding st; shown_progress := shown_progress st;
         progressMessage := progressMessage st; selected_ids := s |}
  | _ => st
  end.

Definition state_after (st : confirm_state) (calls : list action) : confirm_state :=
  fold_left set_state calls st.

(** The ids handed to the knowledge service by a list of calls. *)
Fixpoint added_ids (calls : list action) : list string :=
  match calls with
  | [] => []
  | AddDocument documentId _ :: rest => documentId :: added_ids rest
  | _ :: rest => added_ids rest
  end.

(** The selected id names a listed file, and the first file of that id is
    a document. *)
Definition selects_document (files : list DisplayFile) (selectedId : string) : bool :=
  match List.find (λ f, String.eqb (id f) selectedId) files with
  | Some file => match type file with document => true | chat => false end
  | None => false
  end.

(** The documents of a list that are handed to the service when they are
    handed one after the other until a call fails. *)
Fixpoint attempted (service : string → string → added) (kb : string)
    (documents : list string) : list string :=
  match documents with
  | [] => []
  | d :: rest =>
      if resolved (service d kb) then d :: attempted service kb rest else [d]
  end.

(** A call as the loop makes them, for a selection of [n] ids. *)
Definition loop_call (kb : string) (n : nat) (a : action) : Prop :=
  match a with
  | SetProgressMessage _ => True
  | SetProgress (Partial i n' _) => n' = n ∧ (i < n)%nat
  | Toast toast_warning _ => True
  | AddDocument _ k => k = kb
  | _ => False
  end.

End Confirm.

Global Arguments progress : clear implicits.
Global Arguments action : clear implicits.
Global Arguments added : clear implicits.
Global Arguments confirm_state : clear implicits.

(** The text has no character [c]. *)
Fixpoint free_of (c : ascii) (s : string) : bool :=
  match s with
  | EmptyString => true
  | String c' rest => negb (Ascii.eqb c c') && free_of c rest
  end.

End Dialog.

(** ** Further concrete inputs *)
Module Samples.
Import Json Scenario.

(** A chunk that only reports a block, and what [JSON.parse] makes of it. *)
Definition chunk_blocked : string := wire "{'promptFeedback':{'blockReason':'SAFETY'}}".

Definition parsed_blocked : value dec :=
  VObj [("promptFeedback", VObj [("blockReason", VStr "SAFETY")])].

Definition candidate_same_length : value dec :=
  VObj [("content", VObj [("parts", VArr [VObj [("text", VStr "abc")]])]);
        ("finishReason", VStr "STOP")].

(** A transport that delivers the given calls and then rejects. *)
Definition offline : error := Error "offline".

Definition rejecting (ds : list delivery) : provider :=
  {| baseUrl := "https://generativelanguage.googleapis.com/v1beta/";
     getApiKey := λ _, Some "key";
     sseClient := λ _, {| deliveries := ds; rejection := Some offline |} |}.

(** A static catalog with two models for ['Google AI']. *)
Definition catalog (provider : string) : option (list StaticModel) :=
  if String.eqb provider "Google AI"
  then Some [ {| static_id := "gemini-pro"; static_label := Some "Gemini Pro" |};
              {| static_id := "gemini-flash"; static_label := None |} ]
  else None.

(** A provider that could not be reached, for a reason of its own. *)
Definition unreachable : Transform.ProviderEntity :=
  {| Transform.name := "Google  AI";
     Transform.url := "https://generativelanguage.googleapis.com/v1beta";
     Transform.requiresKey := true;
     Transform.apiKey := Some "key";
     Transform.status := Transform.NOT_CONNECTED;
     Transform.models :=
       Some [ {| Transform.model_name := "gemini-pro"; Transform.model_aliases := [];
                 Transform.model_label := None;
                 Transform.model_apiKey := Some EmptyString |} ];
     Transform.lastReason := Some "QUOTA";
     Transform.lastMessage := Some "quota exceeded" |}.

(** What the two loads of the dialog give, for the knowledge base [kb1]. *)
Definition unified : list Dialog.UnifiedFile :=
  [ {| Dialog.uf_id := "doc1"; Dialog.uf_name := "a.pdf";
       Dialog.uf_source := Some "upload"; Dialog.knowledgeBaseId := None |};
    {| Dialog.uf_id := "doc2"; Dialog.uf_name := "b.pdf";
       Dialog.uf_source := Some "upload"; Dialog.knowledgeBaseId := Some "kb2" |};
    {| Dialog.uf_id := "doc3"; Dialog.uf_name := "c.pdf";
       Dialog.uf_source := Some "upload"; Dialog.knowledgeBaseId := Some "kb1" |};
    {| Dialog.uf_id := "doc4"; Dialog.uf_name := "d.pdf";
       Dialog.uf_source := Some "chat"; Dialog.knowledgeBaseId := None |} ].

Definition attached : list Dialog.ChatFile :=
  [ {| Dialog.conversation_id := "c1"; Dialog.fileName := "e.txt" |};
    {| Dialog.conversation_id := "c1"; Dialog.fileName := "e.txt" |} ].

Definition offered : list Dialog.DisplayFile :=
  Dialog.loaded_files "kb1" (Some unified) (Some attached).

(** A knowledge service that reports one step and fails on [doc2] only. *)
Definition service (documentId kb : string) : Dialog.added nat :=
  {| Dialog.reports := [(50, "half")];
     Dialog.resolved := negb (String.eqb documentId "doc2") |}.

Definition busy : Dialog.confirm_state nat :=
  {| Dialog.adding := true; Dialog.shown_progress := Dialog.Partial 0 2 50;
     Dialog.progressMessage := "half"; Dialog.selected_ids := ["doc1"; "doc2"] |}.

End Samples.

(** * Properties *)

Section Properties.
Context {num : Type} `{!JsNumber num} `{!JsonParser num}.

Implicit Types (this : provider) (cb : StreamCallbacks) (st : provider_state num).
Implicit Types (v parsedData : value num) (tr : list (effect num)).

(** ** The monad *)

Ltac unfold_M :=
  repeat progress
    unfold or_TypeError, when, cb_onStart, cb_onToken, cb_onComplete, cb_onError,
      mbind, M_bind, mret, M_ret, bind, ret, throw, try_catch, emit, read, write,
      trace_of, state_of, result_of in *.

Lemma bind_eq {A B} (m : M num A) (k : A → M num B) st :
  (m ≫= k) st =
  match m st with
  | (Returned a, s1, t1) => let '(o, s2, t2) := k a s1 in (o, s2, t1 ++ t2)
  | (Thrown e, s1, t1) => (Thrown e, s1, t1)
  end.
Proof. reflexivity. Qed.

(** [for_of] over a body that fires only on-token calls and keeps the state. *)
Lemma emit_part_spec cb part st :
  ∃ o toks, emit_part cb part st = (o, st, map OnToken toks).
Proof.
  unfold emit_part. unfold_M.
  repeat case_match; simplify_eq/=.
  all: first [ by eexists _, [] | by eexists _, [_] ].
Qed.

Lemma for_of_emit_part_spec cb content_parts st :
  ∃ o toks, for_of content_parts (emit_part cb) st = (o, st, map OnToken toks).
Proof.
  induction content_parts as [|part rest IH]; cbn.
  - by exists (Returned ()), [].
  - unfold_M. destruct (emit_part_spec cb part st) as (o & toks & ->).
    destruct o as [[]|e].
    + destruct IH as (o' & toks' & ->). exists o', (toks ++ toks'). by rewrite map_app.
    + by exists (Thrown e), toks.
Qed.

Lemma emit_parts_spec cb candidate st :
  ∃ o toks, emit_parts cb candidate st = (o, st, map OnToken toks).
Proof.
  unfold emit_parts.
  destruct (get candidate "content") as [candidate_content|]; cbn;
    [|by exists (Thrown TypeError), []].
  destruct (get_opt candidate_content "parts") eqn:E; cbn; unfold_M; rewrite ?E;
    try (by exists (Returned ()), []).
  destruct (for_of_emit_part_spec cb elems st) as (o & toks & ->).
  exists o, toks. by destruct o.
Qed.

Lemma handle_candidates_spec cb parsedData st :
  ∃ o toks fin,
    handle_candidates cb parsedData st = (o, st, map OnToken toks ++ fin) ∧
    (fin = [] ∨ fin = [OnComplete] ∧ o = Returned ()).
Proof.
  unfold handle_candidates.
  destruct (get parsedData "candidates") as [candidates|]; cbn;
    [|by exists (Thrown TypeError), [], []; auto].
  destruct candidates as [| | | | |[|candidate rest]|]; cbn;
    try (by exists (Returned ()), [], []; auto).
  unfold_M. destruct (emit_parts_spec cb candidate st) as (o & toks & ->).
  destruct o as [[]|e]; [|by exists (Thrown e), toks, []; rewrite app_nil_r; auto].
  destruct (get candidate "finishReason") as [finishReason|]; cbn;
    [|by exists (Thrown TypeError), toks, []; rewrite !app_nil_r; auto].
  destruct (is_string finishReason "STOP"), (onComplete cb); cbn.
  - exists (Returned ()), toks, [OnComplete]. auto.
  - exists (Returned ()), toks, []. auto.
  - exists (Returned ()), toks, []. auto.
  - exists (Returned ()), toks, []. auto.
Qed.

Lemma handle_promptFeedback_spec cb parsedData st :
  ∃ o fin,
    handle_promptFeedback cb parsedData st = (o, st, fin) ∧
    (fin = [] ∨ ∃ e, fin = [OnError e] ∧ o = Returned ()).
Proof.
  unfold handle_promptFeedback. unfold_M.
  repeat case_match; simplify_eq/=; eauto 8.
Qed.

(** What the check of the response id does to the state. *)
Lemma track_response_id_eq parsedData st :
  track_response_id parsedData st =
  match get parsedData "responseId" with
  | None => (Thrown TypeError, st, [])
  | Some responseId =>
      (Returned (),
       if truthy responseId then
         if truthy (currentResponseId st) && strict_neq (currentResponseId st) responseId
         then {| lastContentLength := 0; processedChunks := ∅;
                 currentResponseId := responseId |}
         else {| lastContentLength := lastContentLength st;
                 processedChunks := processedChunks st;
                 currentResponseId := responseId |}
       else st, [])
  end.
Proof.
  unfold track_response_id, set_lastContentLength, processedChunks_clear,
    set_currentResponseId. unfold_M.
  destruct (get parsedData "responseId") as [responseId|]; cbn; [|done].
  destruct (truthy responseId); cbn; [|done].
  by destruct (truthy (currentResponseId st) && strict_neq _ _).
Qed.

Lemma chunk_key_spec parsedData st :
  ∃ o, chunk_key parsedData st = (o, st, []).
Proof.
  unfold chunk_key, observed_length. unfold_M.
  repeat case_match; simplify_eq/=; eauto.
Qed.

(** The state once fingerprint [k] is recorded. *)
Lemma processedChunks_add_eq k st :
  processedChunks_add k st =
  (Returned (),
   {| lastContentLength := lastContentLength st;
      processedChunks := {[ k ]} ∪ processedChunks st;
      currentResponseId := currentResponseId st |}, []).
Proof. reflexivity. Qed.

(** The two checks made on a chunk that is not a duplicate. *)
Lemma checks_spec cb parsedData st :
  ∃ o toks fin,
    (handle_candidates cb parsedData;; handle_promptFeedback cb parsedData) st
      = (o, st, map OnToken toks ++ fin) ∧
    (fin = [] ∨ fin = [OnComplete] ∨
     (∃ e, fin = [OnError e] ∧ o = Returned ()) ∨
     (∃ e, fin = [OnComplete; OnError e] ∧ o = Returned ())).
Proof.
  unfold_M.
  destruct (handle_candidates_spec cb parsedData st) as (o & toks & fin & -> & Hfin).
  destruct o as [[]|e].
  - destruct (handle_promptFeedback_spec cb parsedData st) as (o' & fin' & -> & Hfin').
    exists o', toks, (fin ++ fin'). split; [by rewrite app_assoc|].
    destruct Hfin as [->|[-> _]], Hfin' as [->|(e' & -> & ->)]; cbn; eauto 8.
  - exists (Thrown e), toks, fin. split; [done|].
    destruct Hfin as [->|[-> ?]]; auto.
Qed.

(** The [try] block, step by step. *)
Lemma process_chunk_eq cb rawData st :
  process_chunk cb rawData st =
  match JSON_parse rawData with
  | None => (Thrown SyntaxError, st, [])
  | Some parsedData =>
      match track_response_id parsedData st with
      | (Thrown e, st1, _) => (Thrown e, st1, [])
      | (Returned _, st1, _) =>
          match chunk_key parsedData st1 with
          | (Thrown e, _, _) => (Thrown e, st1, [])
          | (Returned k, _, _) =>
              if bool_decide (k ∈ processedChunks st1) then (Returned (), st1, [])
              else
                (handle_candidates cb parsedData;; handle_promptFeedback cb parsedData)
                  {| lastContentLength := lastContentLength st1;
                     processedChunks := {[ k ]} ∪ processedChunks st1;
                     currentResponseId := currentResponseId st1 |}
          end
      end
  end.
Proof.
  unfold process_chunk.
  destruct (JSON_parse rawData) as [parsedData|]; [|done].
  rewrite bind_eq. cbn. rewrite bind_eq, track_response_id_eq.
  destruct (get parsedData "responseId") as [responseId|]; [|done].
  set (st1 := if truthy responseId then _ else _).
  rewrite bind_eq.
  destruct (chunk_key_spec parsedData st1) as (o & ->).
  destruct o as [k|e]; [|done].
  rewrite bind_eq. unfold processedChunks_has, read.
  destruct (bool_decide (k ∈ processedChunks st1)); [done|].
  rewrite bind_eq, processedChunks_add_eq.
  match goal with |- context [mbind ?k ?m ?s] => destruct (mbind k m s) as [[o st2] tr] end.
  done.
Qed.

Lemma cb_onError_eq cb e st :
  cb_onError cb e st = (Returned (), st, if onError cb then [OnError e] else []).
Proof. unfold_M. by destruct (onError cb). Qed.

(** The callbacks of one chunk: its tokens, then at most an on-complete,
    then at most an on-error; the handler itself always returns. *)
Lemma onData_shape cb rawData st :
  ∃ st' toks fin,
    onData cb rawData st = (Returned (), st', map OnToken toks ++ fin) ∧
    (fin = [] ∨ fin = [OnComplete] ∨
     (∃ e, fin = [OnError e]) ∨ (∃ e, fin = [OnComplete; OnError e])).
Proof.
  unfold onData, try_catch. rewrite process_chunk_eq.
  assert (Hthrown : ∀ e st1,
    ∃ st' toks fin,
      (let '(o, s2, t2) :=
         cb_onError cb (if instanceof_Error e then e
                        else Error "Failed to parse response") st1
       in (o, s2, [] ++ t2)) = (Returned (), st', map OnToken toks ++ fin) ∧
      (fin = [] ∨ fin = [OnComplete] ∨
       (∃ e, fin = [OnError e]) ∨ (∃ e, fin = [OnComplete; OnError e]))).
  { intros e st1. rewrite cb_onError_eq. exists st1, [].
    destruct (onError cb); [eexists [OnError _] | exists []]; (split; [done|eauto]). }
  destruct (JSON_parse rawData) as [parsedData|]; [|apply Hthrown].
  destruct (track_response_id parsedData st) as [[[[]|e] st1] tr1]; [|apply Hthrown].
  destruct (chunk_key parsedData st1) as [[[k|e] st1'] tr1']; [|apply Hthrown].
  destruct (bool_decide (k ∈ processedChunks st1)).
  { exists st1, [], []. auto. }
  match goal with |- context [mbind _ _ ?s] => set (st2 := s) end.
  destruct (checks_spec cb parsedData st2) as (o & toks & fin & -> & Hfin).
  destruct o as [[]|e].
  - exists st2, toks, fin. split; [done|].
    destruct Hfin as [->|[->|[(e & -> & _)|(e & -> & _)]]]; eauto.
  - rewrite cb_onError_eq.
    destruct Hfin as [->|[->|[(e' & _ & ?)|(e' & _ & ?)]]]; try done.
    + exists st2, toks. rewrite app_nil_r.
      destruct (onError cb); [eexists [OnError _] | exists []]; (split; [done|eauto]).
    + exists st2, toks. rewrite <- app_assoc.
      destruct (onError cb); [eexists [OnComplete; OnError _] | exists [OnComplete]];
        (split; [done|eauto]).
Qed.

(** The transport's calls never throw into [chatStream] and make no
    connection attempt of their own. *)
Lemma handle_spec cb d st :
  ∃ st' tr, handle cb d st = (Returned (), st', tr) ∧ List.filter is_attempt tr = [].
Proof.
  destruct d as [|rawData|e]; cbn.
  - unfold_M. destruct (onStart cb); eauto.
  - destruct (onData_shape cb rawData st) as (st' & toks & fin & -> & Hfin).
    exists st', (map OnToken toks ++ fin). split; [done|].
    rewrite List.filter_app.
    assert (List.filter is_attempt (map OnToken toks) = []) as ->.
    { induction toks; [done|]. by cbn. }
    destruct Hfin as [->|[->|[[e ->]|[e ->]]]]; done.
  - rewrite cb_onError_eq. destruct (onError cb); eauto.
Qed.

Lemma deliver_spec cb ds st :
  ∃ st' tr, deliver cb ds st = (Returned (), st', tr) ∧ List.filter is_attempt tr = [].
Proof.
  unfold deliver. revert st. induction ds as [|d ds IH]; intros st; cbn.
  - by exists st, [].
  - rewrite bind_eq. destruct (handle_spec cb d st) as (st1 & tr1 & -> & H1).
    destruct (IH st1) as (st2 & tr2 & -> & H2).
    exists st2, (tr1 ++ tr2). by rewrite List.filter_app, H1, H2.
Qed.

(** [chatStream] with a credential: the state is set up, the connection
    attempted, the transport's calls handled; a rejection of the attempt
    is reported last. *)
Lemma chatStream_eq this model messages cb opts st key :
  getApiKey this (Some model) = Some key →
  key ≠ EmptyString →
  let config := stream_config this model key messages in
  ∃ st' tr,
    deliver cb (deliveries (sseClient this config)) initial_state
      = (Returned (), st', tr) ∧
    List.filter is_attempt tr = [] ∧
    chatStream this model messages cb opts st =
      (Returned (), st',
       StartConnection config :: tr ++
       match rejection (sseClient this config) with
       | Some e => if onError cb then [OnError e] else []
       | None => []
       end).
Proof.
  intros Hkey Hne config.
  destruct (deliver_spec cb (deliveries (sseClient this config)) initial_state)
    as (st' & tr & Hrun & Htr).
  exists st', tr. split; [done|]. split; [done|].
  unfold chatStream. rewrite Hkey. cbn.
  apply String.eqb_neq in Hne. rewrite Hne. cbn.
  fold config. unfold startConnection, try_catch.
  fold (deliver cb (deliveries (sseClient this config))).
  unfold initial_state in Hrun.
  rewrite bind_eq; cbn. rewrite bind_eq; cbn. rewrite bind_eq; cbn.
  rewrite bind_eq; cbn. rewrite bind_eq, Hrun.
  destruct (rejection (sseClient this config)) as [e|]; cbn.
  - rewrite cb_onError_eq. by rewrite app_nil_r.
  - by rewrite app_nil_r.
Qed.

Lemma attempt_in_filter (config : sse_config) tr :
  In (StartConnection config) tr → In (StartConnection config) (List.filter is_attempt tr).
Proof. intros Hin. apply List.filter_In. by split. Qed.

Lemma strip_trailing_slash_app b : strip_trailing_slash (b +:+ "/") = b.
Proof.
  induction b as [|c b IH]; [done|].
  change (String c b +:+ "/") with (String c (b +:+ "/")).
  destruct (b +:+ "/") as [|c' rest] eqn:E; [by destruct b|].
  change (strip_trailing_slash (String c (String c' rest)))
    with (String c (strip_trailing_slash (String c' rest))).
  by rewrite IH.
Qed.

(** [chatStream] without a credential. *)
Lemma chatStream_absent_eq this model messages cb opts st :
  key_present (getApiKey this (Some model)) = false →
  chatStream this model messages cb opts st
    = (Returned (), st, if onError cb then [OnError (Error "NO_KEY")] else []).
Proof.
  intros Hkey. unfold chatStream. rewrite Hkey. cbn. by rewrite cb_onError_eq.
Qed.

(** ** Fingerprints *)

(** A chunk with a fingerprint: when the fingerprint is on record the
    handler returns at once, silently; either way the fingerprint is on
    record afterwards, next to those that the check of the response id
    left there. *)
Lemma onData_fingerprinted cb rawData st parsedData k :
  JSON_parse rawData = Some parsedData →
  fingerprint rawData st = Some k →
  (k ∈ processedChunks (tracked parsedData st) →
   onData cb rawData st = (Returned (), tracked parsedData st, [])) ∧
  processedChunks (state_of (onData cb rawData st))
    = {[ k ]} ∪ processedChunks (tracked parsedData st) ∧
  currentResponseId (state_of (onData cb rawData st))
    = currentResponseId (tracked parsedData st).
Proof.
  intros Hparse Hfp. unfold fingerprint in Hfp. rewrite Hparse in Hfp. cbn in Hfp.
  rewrite bind_eq in Hfp. unfold tracked, state_of.
  unfold onData, try_catch. rewrite process_chunk_eq, Hparse.
  destruct (track_response_id parsedData st) as [[[[]|e] st1] tr1]; [|done].
  destruct (chunk_key_spec parsedData st1) as (o & Hkey). rewrite Hkey in *.
  destruct o as [k'|e]; [|done]. injection Hfp as ->.
  case_bool_decide as Hin.
  - split; [done|]. cbn. split; [|done].
    symmetry. apply subseteq_union_1_L. by apply singleton_subseteq_l.
  - split; [done|].
    match goal with |- context [mbind _ _ ?s] => set (st2 := s) end.
    destruct (checks_spec cb parsedData st2) as (o & toks & fin & -> & _).
    destruct o as [[]|e]; [done|]. by rewrite cb_onError_eq.
Qed.

(** A chunk without a fingerprint (malformed, or a conversion threw)
    leaves on record what the check of the response id left, if it got
    that far. *)
Lemma onData_unfingerprinted cb rawData st :
  fingerprint rawData st = None →
  processedChunks (state_of (onData cb rawData st)) =
  match JSON_parse rawData with
  | Some parsedData => processedChunks (tracked parsedData st)
  | None => processedChunks st
  end.
Proof.
  intros Hfp. unfold fingerprint in Hfp.
  unfold onData, try_catch, tracked, state_of. rewrite process_chunk_eq.
  destruct (JSON_parse rawData) as [parsedData|]; cbn in *;
    [|by rewrite cb_onError_eq].
  rewrite bind_eq in Hfp.
  destruct (track_response_id parsedData st) as [[[[]|e] st1] tr1];
    [|by rewrite cb_onError_eq].
  destruct (chunk_key_spec parsedData st1) as (o & Hkey). rewrite Hkey in *.
  destruct o as [k'|e]; [done|]. by rewrite cb_onError_eq.
Qed.

(** Unless the guard is met, the check of the response id keeps the
    record of fingerprints. *)
Lemma tracked_no_reset rawData parsedData st :
  JSON_parse rawData = Some parsedData →
  resets rawData st = false →
  processedChunks (tracked parsedData st) = processedChunks st.
Proof.
  intros Hparse Hquiet. unfold resets in Hquiet. rewrite Hparse in Hquiet.
  unfold tracked, state_of. rewrite track_response_id_eq.
  destruct (get parsedData "responseId") as [responseId|]; [|done]. cbn.
  destruct (truthy responseId); [|done]. cbn in Hquiet. by rewrite Hquiet.
Qed.

(** One chunk that does not meet the guard: the record only grows, and
    the chunk's fingerprint is on it afterwards; a chunk whose fingerprint
    was on it already fires nothing. *)
Lemma onData_record cb rawData st :
  resets rawData st = false →
  processedChunks st ⊆ processedChunks (state_of (onData cb rawData st)) ∧
  ∀ k, fingerprint rawData st = Some k →
       k ∈ processedChunks (state_of (onData cb rawData st)) ∧
       (k ∈ processedChunks st → trace_of (onData cb rawData st) = []).
Proof.
  intros Hquiet.
  destruct (fingerprint rawData st) as [k|] eqn:Hfp.
  - destruct (JSON_parse rawData) as [parsedData|] eqn:Hparse;
      [|by unfold fingerprint in Hfp; rewrite Hparse in Hfp].
    destruct (onData_fingerprinted cb rawData st parsedData k Hparse Hfp)
      as (Hdup & -> & _).
    rewrite (tracked_no_reset rawData parsedData st Hparse Hquiet) in *.
    split; [set_solver|]. intros k' [= <-]. split; [set_solver|].
    intros Hin. by rewrite (Hdup Hin).
  - rewrite (onData_unfingerprinted cb rawData st Hfp). split; [|done].
    destruct (JSON_parse rawData) as [parsedData|] eqn:Hparse; [|done].
    by rewrite (tracked_no_reset rawData parsedData st Hparse Hquiet).
Qed.

(** C2, amended: over a run of chunks none of which meets the guard that
    clears the record (a response id arriving while another one is
    tracked), whatever the state at its start, at most one chunk per
    fingerprint fires on-token, and none does when the fingerprint was on
    record at the start. *)
Theorem dedup_between_resets cb chunks st k :
  no_reset cb chunks st = true →
(length (emitting k (chunk_log cb chunks st)) ≤ 1)%nat ∧
  (k ∈ processedChunks st → emitting k (chunk_log cb chunks st) = []).
Proof.
  revert st. induction chunks as [|rawData rest IH]; intros st Hquiet.
  { cbn. split; [lia|done]. }
  cbn in Hquiet. apply andb_prop in Hquiet as [Hhere Hrest].
  apply negb_true_iff in Hhere.
  destruct (onData_record cb rawData st Hhere) as [Hgrow Hfp].
  destruct (IH _ Hrest) as [IHle IHnone].
  unfold emitting in *. cbn [chunk_log List.filter fst snd].
  case_bool_decide as Hk; cbn [andb].
  - destruct (Hfp k Hk) as [Hin Hdup]. rewrite (IHnone Hin).
    destruct (existsb is_token _) eqn:Htok; cbn; [|split; [lia|done]].
    split; [lia|]. intros Hold. rewrite (Hdup Hold) in Htok. done.
  - split; [done|]. intros Hold. apply IHnone. by apply Hgrow.
Qed.

(** Reading a property throws on [undefined] and [null] alone. *)
Lemma get_total parsedData k k' x :
  get parsedData k = Some x → ∃ y, get parsedData k' = Some y ∧ get_opt parsedData k' = y.
Proof. destruct parsedData; cbn; intros; simplify_eq; eauto. Qed.

Lemma observed_text_length t n :
  text_length t = Some n →
  or_else (get_opt t "length") (VNum (num_of_nat 0)) = VNum (num_of_nat n).
Proof.
  unfold or_else.
  destruct t; cbn; intros; simplify_eq; try done;
    rewrite num_is_zero_of_nat; case_bool_decide as Hn; cbn; by rewrite ?Hn.
Qed.

(** The fingerprint of a chunk whose first text has length [n]: the
    tracked id as text, a dash, the length. *)
Lemma fingerprint_eq rawData parsedData st responseId id_text n :
  JSON_parse rawData = Some parsedData →
  get parsedData "responseId" = Some responseId →
  ToString (currentResponseId (tracked parsedData st)) = Some id_text →
  text_length (first_text parsedData) = Some n →
  fingerprint rawData st = Some (id_text +:+ "-" +:+ num_to_string (num_of_nat n)).
Proof.
  intros Hparse Hid Htext Hlen. unfold fingerprint, tracked, state_of in *.
  rewrite Hparse. cbn. rewrite bind_eq.
  rewrite track_response_id_eq, Hid in *. cbn in Htext.
  set (st1 := if truthy responseId then _ else _) in *.
  destruct (get_total parsedData "responseId" "candidates" _ Hid) as (c & Hc & Hc').
  unfold first_text in Hlen. rewrite Hc' in Hlen.
  unfold chunk_key, observed_length. unfold_M.
  by rewrite Htext, Hc, (observed_text_length _ n Hlen).
Qed.

Lemma tracked_string_id parsedData st id :
  get parsedData "responseId" = Some (VStr id) →
  id ≠ EmptyString →
  currentResponseId (tracked parsedData st) = VStr id.
Proof.
  intros Hid Hne. unfold tracked, state_of. rewrite track_response_id_eq, Hid.
  apply String.eqb_neq in Hne. cbn. rewrite Hne. cbn. by case_match.
Qed.

Lemma tracked_no_id parsedData st responseId :
  get parsedData "responseId" = Some responseId →
  truthy responseId = false →
  tracked parsedData st = st.
Proof.
  intros Hid Hfalsy. unfold tracked, state_of.
  by rewrite track_response_id_eq, Hid, Hfalsy.
Qed.

(** The id that is tracked once a chunk has been handled. *)
Lemma onData_current cb rawData st :
  currentResponseId (state_of (onData cb rawData st)) =
  match JSON_parse rawData with
  | Some parsedData => currentResponseId (tracked parsedData st)
  | None => currentResponseId st
  end.
Proof.
  destruct (fingerprint rawData st) as [k|] eqn:Hfp.
  - destruct (JSON_parse rawData) as [parsedData|] eqn:Hparse;
      [|by unfold fingerprint in Hfp; rewrite Hparse in Hfp].
    by destruct (onData_fingerprinted cb rawData st parsedData k Hparse Hfp) as (_ & _ & ->).
  - unfold fingerprint in Hfp.
    unfold onData, try_catch, tracked, state_of. rewrite process_chunk_eq.
    destruct (JSON_parse rawData) as [parsedData|]; cbn in *;
      [|by rewrite cb_onError_eq].
    rewrite bind_eq in Hfp.
    destruct (track_response_id parsedData st) as [[[[]|e] st1] tr1];
      [|by rewrite cb_onError_eq].
    destruct (chunk_key_spec parsedData st1) as (o & Hkey). rewrite Hkey in *.
    destruct o as [k'|e]; [done|]. by rewrite cb_onError_eq.
Qed.

Lemma strict_neq_string id v : strict_neq (VStr id) v = false → v = VStr id.
Proof.
  destruct v; cbn; try done. intros Heq. apply negb_false_iff, String.eqb_eq in Heq.
  by subst.
Qed.

(** A chunk that does not meet the guard leaves a tracked string id as it
    is. *)
Lemma onData_keeps_id cb rawData st id :
  resets rawData st = false →
  currentResponseId st = VStr id →
  id ≠ EmptyString →
  currentResponseId (state_of (onData cb rawData st)) = VStr id.
Proof.
  intros Hquiet Hcur Hne. rewrite onData_current. unfold resets in Hquiet.
  destruct (JSON_parse rawData) as [parsedData|]; [|done].
  unfold tracked, state_of. rewrite track_response_id_eq.
  destruct (get parsedData "responseId") as [responseId|]; [|done]. cbn.
  destruct (truthy responseId); [|done]. rewrite Hcur in *.
  apply String.eqb_neq in Hne.
  assert (strict_neq (VStr id) responseId = false) as Hsame.
  { revert Hquiet. unfold truthy. rewrite Hne. cbn [negb andb]. done. }
  rewrite Hsame, andb_false_r. cbn. by apply strict_neq_string.
Qed.

(** Over chunks that do not meet the guard the record only grows, and a
    tracked string id stays. *)
Lemma after_chunks_record cb chunks st :
  no_reset cb chunks st = true →
  processedChunks st ⊆ processedChunks (after_chunks cb chunks st).
Proof.
  revert st. induction chunks as [|rawData rest IH]; intros st Hquiet; [done|].
  cbn in *. apply andb_prop in Hquiet as [Hhere Hrest].
  apply negb_true_iff in Hhere.
  destruct (onData_record cb rawData st Hhere) as [Hgrow _].
  etrans; [exact Hgrow|]. by apply IH.
Qed.

Lemma after_chunks_keeps_id cb chunks st id :
  no_reset cb chunks st = true →
  currentResponseId st = VStr id →
  id ≠ EmptyString →
  currentResponseId (after_chunks cb chunks st) = VStr id.
Proof.
  revert st. induction chunks as [|rawData rest IH]; intros st Hquiet Hcur Hne; [done|].
  cbn in *. apply andb_prop in Hquiet as [Hhere Hrest].
  apply negb_true_iff in Hhere.
  apply IH; [done| |done]. by apply onData_keeps_id.
Qed.

(** A chunk, then chunks that do not meet the guard, then a chunk that
    does not meet it either, with the id of the first being tracked and a
    first text of the same length: the last one has the fingerprint of
    the first and is dropped. *)
Lemma same_fingerprint_dropped cb raw1 middle raw2 st parsed1 parsed2 id1 id2 id_text n :
  JSON_parse raw1 = Some parsed1 →
  JSON_parse raw2 = Some parsed2 →
  get parsed1 "responseId" = Some id1 →
  get parsed2 "responseId" = Some id2 →
  ToString (currentResponseId (tracked parsed1 st)) = Some id_text →
  no_reset cb middle (state_of (onData cb raw1 st)) = true →
  resets raw2 (after_chunks cb middle (state_of (onData cb raw1 st))) = false →
  ToString (currentResponseId
              (tracked parsed2 (after_chunks cb middle (state_of (onData cb raw1 st)))))
    = Some id_text →
  text_length (first_text parsed1) = Some n →
  text_length (first_text parsed2) = Some n →
  trace_of (onData cb raw2 (after_chunks cb middle (state_of (onData cb raw1 st)))) = [].
Proof.
  intros Hp1 Hp2 Hid1 Hid2 Htext1 Hmiddle Hquiet Htext2 Hn1 Hn2.
  pose proof (fingerprint_eq raw1 parsed1 st id1 id_text n Hp1 Hid1 Htext1 Hn1) as Hfp1.
  destruct (onData_fingerprinted cb raw1 st parsed1 _ Hp1 Hfp1) as (_ & Hrec & _).
  set (st1 := state_of (onData cb raw1 st)) in *.
  pose proof (after_chunks_record cb middle st1 Hmiddle) as Hgrow.
  set (st2 := after_chunks cb middle st1) in *.
  pose proof (fingerprint_eq raw2 parsed2 st2 id2 id_text n Hp2 Hid2 Htext2 Hn2) as Hfp2.
  destruct (onData_fingerprinted cb raw2 st2 parsed2 _ Hp2 Hfp2) as (Hdup & _ & _).
  rewrite Hdup; [done|].
  rewrite (tracked_no_reset raw2 parsed2 st2 Hp2 Hquiet).
  apply Hgrow. rewrite Hrec. apply elem_of_union. left. by apply elem_of_singleton.
Qed.

(** C9: a chunk whose fingerprint is on record fires no callback at all,
    whatever finish reason or block reason it carries: the handler
    returns before it looks at them.  The fingerprint is the tracked
    response id and the length of the first text alone (absent counts as
    length 0).  So a chunk whose first text has the length of that of an
    earlier chunk fires nothing, whatever else the two carry, when both
    carry the same response id and no chunk in between met the guard that
    clears the record; likewise when neither carries an id and the id
    being tracked, if any, is the same for both. *)
Theorem duplicate_fingerprint_silent cb :
  (∀ rawData st parsedData k,
     JSON_parse rawData = Some parsedData →
     fingerprint rawData st = Some k →
     k ∈ processedChunks (tracked parsedData st) →
     onData cb rawData st = (Returned (), tracked parsedData st, [])) ∧
  (∀ raw1 middle raw2 st parsed1 parsed2 id n,
     JSON_parse raw1 = Some parsed1 →
     JSON_parse raw2 = Some parsed2 →
     get parsed1 "responseId" = Some (VStr id) →
     get parsed2 "responseId" = Some (VStr id) →
     id ≠ EmptyString →
     no_reset cb middle (state_of (onData cb raw1 st)) = true →
     text_length (first_text parsed1) = Some n →
     text_length (first_text parsed2) = Some n →
     trace_of (onData cb raw2 (after_chunks cb middle (state_of (onData cb raw1 st))))
       = []) ∧
  (∀ raw1 middle raw2 st parsed1 parsed2 id1 id2 id_text n,
     JSON_parse raw1 = Some parsed1 →
     JSON_parse raw2 = Some parsed2 →
     get parsed1 "responseId" = Some id1 → truthy id1 = false →
     get parsed2 "responseId" = Some id2 → truthy id2 = false →
     ToString (currentResponseId st) = Some id_text →
     no_reset cb middle (state_of (onData cb raw1 st)) = true →
     currentResponseId (after_chunks cb middle (state_of (onData cb raw1 st)))
       = currentResponseId st →
     text_length (first_text parsed1) = Some n →
     text_length (first_text parsed2) = Some n →
     trace_of (onData cb raw2 (after_chunks cb middle (state_of (onData cb raw1 st))))
       = []).
Proof.
  split; [|split].
  - intros rawData st parsedData k Hparse Hfp.
    by destruct (onData_fingerprinted cb rawData st parsedData k Hparse Hfp).
  - intros raw1 middle raw2 st parsed1 parsed2 id n Hp1 Hp2 Hid1 Hid2 Hne Hmiddle Hn1 Hn2.
    pose proof (tracked_string_id parsed1 st id Hid1 Hne) as Hcur1.
    assert (currentResponseId (state_of (onData cb raw1 st)) = VStr id) as Hcur.
    { by rewrite onData_current, Hp1. }
    pose proof (after_chunks_keeps_id cb middle _ id Hmiddle Hcur Hne) as Hcur2.
    apply (same_fingerprint_dropped cb raw1 middle raw2 st parsed1 parsed2
             (VStr id) (VStr id) id n); try done.
    + by rewrite Hcur1.
    + unfold resets. rewrite Hp2, Hid2, Hcur2. cbn.
      by rewrite String.eqb_refl, andb_false_r.
    + by rewrite (tracked_string_id parsed2 _ id Hid2 Hne).
  - intros raw1 middle raw2 st parsed1 parsed2 id1 id2 id_text n
      Hp1 Hp2 Hid1 Hno1 Hid2 Hno2 Htext Hmiddle Hsame Hn1 Hn2.
    pose proof (tracked_no_id parsed1 st id1 Hid1 Hno1) as Hst1.
    apply (same_fingerprint_dropped cb raw1 middle raw2 st parsed1 parsed2 id1 id2 id_text n);
      try done.
    + by rewrite Hst1.
    + unfold resets. by rewrite Hp2, Hid2, Hno2.
    + by rewrite (tracked_no_id parsed2 _ id2 Hid2 Hno2), Hsame.
Qed.

(** ** Response identity *)

Lemma get_opt_get v k x : get v k = Some x → get_opt v k = x.
Proof. destruct v; cbn; intros; by simplify_eq. Qed.

Lemma carries_text_first parsedData t :
  carries_text parsedData t → first_text parsedData = VStr t.
Proof.
  intros (candidate & others & candidate_content & part & more & Hc & Hcc & Hparts & Ht).
  unfold first_text.
  rewrite (get_opt_get _ _ _ Hc). cbn [first_opt nullish first].
  rewrite (get_opt_get _ _ _ Hcc), Hparts. cbn [first_opt nullish first].
  by rewrite (get_opt_get _ _ _ Ht).
Qed.

(** A part with a text that is not empty fires an on-token with it. *)
Lemma emit_part_text cb part t st :
  get part "text" = Some (VStr t) →
  t ≠ EmptyString →
  emit_part cb part st = (Returned (), st, if onToken cb then [OnToken (VStr t)] else []).
Proof.
  intros Ht Hne. unfold emit_part. unfold_M. rewrite Ht.
  apply String.eqb_neq in Hne. cbn. rewrite Hne. cbn.
  rewrite num_gt_zero_of_nat.
  assert (bool_decide (0 < String.length t) = true) as ->.
  { apply bool_decide_eq_true. destruct t; [done|]. cbn. lia. }
  by destruct (onToken cb).
Qed.

(** The checks on a chunk that carries a text fire its on-token first. *)
Lemma checks_emit cb parsedData t st :
  carries_text parsedData t →
  t ≠ EmptyString →
  onToken cb = true →
  ∃ o tr, (handle_candidates cb parsedData;; handle_promptFeedback cb parsedData) st
          = (o, st, OnToken (VStr t) :: tr).
Proof.
  intros (candidate & others & candidate_content & part & more & Hc & Hcc & Hparts & Ht)
    Hne Hcb.
  destruct (checks_spec cb parsedData st) as (o & toks & fin & Hrun & _).
  rewrite bind_eq in Hrun |- *.
  assert (∃ o1 tr1, handle_candidates cb parsedData st = (o1, st, OnToken (VStr t) :: tr1))
    as (o1 & tr1 & Hcand).
  { unfold handle_candidates. rewrite bind_eq, Hc. cbn. rewrite bind_eq.
    unfold emit_parts. rewrite bind_eq, Hcc. cbn. rewrite Hparts. cbn [for_of].
    rewrite bind_eq, (emit_part_text cb part t st Ht Hne), Hcb.
    destruct (for_of_emit_part_spec cb more st) as (o2 & toks2 & ->).
    destruct o2 as [[]|e]; cbn; [|eauto].
    destruct (_ ≫= _) as [[o3 st3] tr3] eqn:Hfin.
    assert (st3 = st) as ->.
    { revert Hfin. unfold_M. repeat case_match; congruence. }
    eauto. }
  rewrite Hcand in *. destruct o1 as [[]|e]; [|eauto].
  destruct (handle_promptFeedback_spec cb parsedData st) as (o' & fin' & -> & _).
  eauto.
Qed.

(** C3, amended: when a chunk carries a response id (a truthy one) while
    another id is tracked, the check clears the record of fingerprints and
    the length counter and adopts the new id, and the chunk is handled as
    the first chunk of an exchange would be: nothing seen before can make
    the handler drop it.  If its first candidate carries a text that is
    not empty, and its id can be printed in the fingerprint, the text is
    emitted through on-token. *)
Theorem identity_change_resets cb rawData st parsedData responseId :
  JSON_parse rawData = Some parsedData →
  get parsedData "responseId" = Some responseId →
  truthy responseId = true →
  truthy (currentResponseId st) = true →
  strict_neq (currentResponseId st) responseId = true →
  tracked parsedData st
    = {| lastContentLength := 0; processedChunks := ∅; currentResponseId := responseId |} ∧
  onData cb rawData st = onData cb rawData initial_state ∧
  (∀ t, carries_text parsedData t → t ≠ EmptyString →
        is_Some (ToString responseId) → onToken cb = true →
        ∃ tr, trace_of (onData cb rawData st) = OnToken (VStr t) :: tr).
Proof.
  intros Hparse Hid Hrid Hcur Hneq.
  assert (tracked parsedData st
    = {| lastContentLength := 0; processedChunks := ∅; currentResponseId := responseId |})
    as Hreset.
  { unfold tracked, state_of. by rewrite track_response_id_eq, Hid, Hrid, Hcur, Hneq. }
  split; [done|]. split.
  { unfold tracked, state_of in Hreset.
    unfold onData, try_catch. rewrite !process_chunk_eq, Hparse.
    rewrite !track_response_id_eq, Hid in *. cbn in Hreset. by rewrite Hreset, Hrid. }
  intros t Htext Hne [id_text Hprint] Hcb.
  assert (fingerprint rawData st
    = Some (id_text +:+ "-" +:+ num_to_string (num_of_nat (String.length t)))) as Hfp.
  { apply (fingerprint_eq rawData parsedData st responseId); try done.
    - by rewrite Hreset.
    - by rewrite (carries_text_first _ _ Htext). }
  revert Hfp. unfold fingerprint, trace_of, onData, try_catch.
  rewrite process_chunk_eq, Hparse. cbn. rewrite bind_eq.
  unfold tracked, state_of in Hreset.
  destruct (track_response_id parsedData st) as [[[[]|e] st1] tr1]; [|done].
  cbn in Hreset. subst st1.
  destruct (chunk_key_spec parsedData {| lastContentLength := 0; processedChunks := ∅;
    currentResponseId := responseId |}) as (o & ->).
  destruct o as [k|e]; [|done]. intros _.
  rewrite bool_decide_eq_false_2 by apply not_elem_of_empty.
  match goal with |- context [mbind _ _ ?s] => set (st2 := s) end.
  destruct (checks_emit cb parsedData t st2 Htext Hne Hcb) as (o & tr & ->).
  destruct o as [[]|e]; [eauto|]. rewrite cb_onError_eq. cbn. eauto.
Qed.

(** ** Malformed chunks *)

Lemma deliver_app cb before after st :
  deliver cb (before ++ after) st =
  (Returned (), state_of (deliver cb after (state_of (deliver cb before st))),
   trace_of (deliver cb before st)
   ++ trace_of (deliver cb after (state_of (deliver cb before st)))).
Proof.
  revert st. induction before as [|d before IH]; intros st.
  - destruct (deliver_spec cb after st) as (st' & tr & Hrun & _).
    cbn [app]. unfold deliver in *. cbn [for_of].
    change (state_of (ret () st)) with st. by rewrite Hrun.
  - unfold deliver in *. cbn [for_of app]. rewrite !bind_eq.
    destruct (handle_spec cb d st) as (st1 & tr1 & -> & _).
    rewrite IH. unfold trace_of, state_of. cbn.
    destruct (deliver_spec cb before st1) as (st2 & tr2 & Hrun & _).
    unfold deliver in Hrun. rewrite Hrun. cbn. by rewrite app_assoc.
Qed.

(** C5, amended: a chunk that is not JSON makes the handler call on-error
    once, with the SyntaxError, and nothing else: it returns, the state is
    as before, and the chunks after it are handled as if it had not been
    delivered.  So in an exchange every malformed chunk is reported, each
    one once. *)
Theorem malformed_chunk_reported cb rawData :
  JSON_parse rawData = None →
  (∀ st, onData cb rawData st
         = (Returned (), st, if onError cb then [OnError SyntaxError] else [])) ∧
  (∀ before after st,
     trace_of (deliver cb (before ++ Data rawData :: after) st) =
     trace_of (deliver cb before st)
     ++ (if onError cb then [OnError SyntaxError] else [])
     ++ trace_of (deliver cb after (state_of (deliver cb before st)))).
Proof.
  intros Hparse.
  assert (∀ st, onData cb rawData st
    = (Returned (), st, if onError cb then [OnError SyntaxError] else [])) as Hone.
  { intros st. unfold onData, try_catch. rewrite process_chunk_eq, Hparse.
    by rewrite cb_onError_eq. }
  split; [done|]. intros before after st.
  rewrite deliver_app. unfold trace_of at 1. cbn [snd]. f_equal.
  set (st1 := state_of (deliver cb before st)).
  unfold deliver. cbn [for_of]. rewrite bind_eq. cbn [handle]. rewrite Hone.
  destruct (for_of after (handle cb) st1) as [[o st2] tr]. done.
Qed.

(** ** Terminal callbacks *)

Lemma tokens_before_terminals_tokens (toks : list (value num)) fin :
  tokens_before_terminals (map OnToken toks ++ fin) = tokens_before_terminals fin.
Proof. induction toks; [done|]. by cbn. Qed.

Lemma terminal_count_tokens (toks : list (value num)) fin :
  terminal_count (map OnToken toks ++ fin) = terminal_count fin.
Proof. unfold terminal_count. induction toks; [done|]. by cbn. Qed.

(** C1, amended: for every raw chunk the handler returns, having fired the
    chunk's on-token calls first, then at most one on-complete, then at
    most one on-error: at most two terminal callbacks per chunk and no
    on-token of the chunk after them.  Nothing in the state tells a later
    chunk that a terminal callback has fired. *)
Theorem chunk_callbacks cb rawData st :
  ∃ st' toks fin,
    onData cb rawData st = (Returned (), st', map OnToken toks ++ fin) ∧
    (fin = [] ∨ fin = [OnComplete] ∨
     (∃ e, fin = [OnError e]) ∨ (∃ e, fin = [OnComplete; OnError e])) ∧
    (terminal_count (trace_of (onData cb rawData st)) ≤ 2)%nat ∧
    tokens_before_terminals (trace_of (onData cb rawData st)) = true.
Proof.
  destruct (onData_shape cb rawData st) as (st' & toks & fin & Hrun & Hfin).
  exists st', toks, fin. rewrite Hrun. unfold trace_of. cbn [snd].
  rewrite terminal_count_tokens, tokens_before_terminals_tokens.
  split; [done|]. split; [done|].
  destruct Hfin as [->|[->|[[e ->]|[e ->]]]]; cbn; split; (lia || done).
Qed.

(** ** The credential gate *)

(** C6: [checkConnection] returns a value for every provider, in every
    state, without throwing and without any effect, so without a
    connection attempt; when [getApiKey] yields [null] the value is
    [{ok: false, reason: 'NO_KEY', message: 'NO_KEY'}]. *)
Theorem checkConnection_no_key this st :
  ∃ r, checkConnection this st = (Returned r, st, []) ∧
       (getApiKey this None = None →
        r = {| ok := false; reason := Some "NO_KEY"; message := Some "NO_KEY" |}).
Proof.
  unfold checkConnection.
  destruct (getApiKey this None) as [k|]; cbn.
  - destruct (negb (negb (k =? EmptyString)%string)); eexists; split; done.
  - eexists; split; done.
Qed.

(** C7: when the credential is absent ([getApiKey] yields [null], or the
    empty string, which [!apiKey] treats alike), [chatStream] calls
    on-error with [Error('NO_KEY')], returns, leaves the state alone and
    does nothing else: no connection attempt, no other callback. *)
Theorem chatStream_no_key this model messages cb opts st :
  key_present (getApiKey this (Some model)) = false →
  chatStream this model messages cb opts st
    = (Returned (), st, if onError cb then [OnError (Error "NO_KEY")] else []) ∧
  attempt_count (trace_of (chatStream this model messages cb opts st)) = 0.
Proof.
  intros Hkey. rewrite chatStream_absent_eq by done.
  split; [done|]. by destruct (onError cb).
Qed.

(** ** The request *)

(** C8: with a credential, [chatStream] makes exactly one connection
    attempt.  Its URL is the base URL without its final slash, then
    [/models/], the model and [:streamGenerateContent?alt=sse]; the
    method is POST; the headers hold the JSON content type, the key under
    [x-goog-api-key], the event-stream accept and keep-alive; the body
    maps every message to its role ([user], or [model] for any other) and
    one part with its content, next to the generation settings. *)
Theorem chatStream_request this model messages cb opts st key :
  getApiKey this (Some model) = Some key →
  key ≠ EmptyString →
  ∃ config,
    List.filter is_attempt (trace_of (chatStream this model messages cb opts st))
      = [StartConnection config] ∧
    url config = strip_trailing_slash (baseUrl this) +:+ "/models/" +:+ model
                   +:+ ":streamGenerateContent?alt=sse" ∧
    (∀ b, baseUrl this = b +:+ "/" →
          url config = b +:+ "/models/" +:+ model +:+ ":streamGenerateContent?alt=sse") ∧
    method config = "POST" ∧
    In ("Content-Type", "application/json") (headers config) ∧
    In ("x-goog-api-key", key) (headers config) ∧
    In ("Accept", "text/event-stream") (headers config) ∧
    In ("Connection", "keep-alive") (headers config) ∧
    body config =
      {| contents :=
           map (λ m, {| content_role := if String.eqb (role m) "user" then "user" else "model";
                        parts := [ {| text := content m |} ] |}) messages;
         generationConfig :=
           {| temperature := 0.7%Q; thinkingConfig := {| thinkingBudget := 0%Z |} |} |}.
Proof.
  intros Hkey Hne.
  destruct (chatStream_eq this model messages cb opts st key Hkey Hne)
    as (st' & tr & _ & Htr & ->).
  exists (stream_config this model key messages). split.
  { unfold trace_of. cbn. rewrite List.filter_app, Htr. cbn.
    by destruct (rejection _) as [e|]; [destruct (onError cb)|]. }
  split; [done|]. split.
  { intros b Hb. cbn. unfold stream_url. by rewrite Hb, strip_trailing_slash_app. }
  cbn. intuition.
Qed.

(** C10: the options argument does not reach the request, nor anything
    else: two calls that differ only in it do the same, and any request
    made carries temperature 0.7 and thinking budget 0. *)
Theorem chatStream_ignores_opts this model messages cb opts1 opts2 st :
  chatStream this model messages cb opts1 st = chatStream this model messages cb opts2 st ∧
  ∀ config,
    In (StartConnection config) (trace_of (chatStream this model messages cb opts1 st)) →
    temperature (generationConfig (body config)) = 0.7%Q ∧
    thinkingBudget (thinkingConfig (generationConfig (body config))) = 0%Z.
Proof.
  split; [done|]. intros config Hin.
  destruct (key_present (getApiKey this (Some model))) eqn:Hpresent.
  - destruct (getApiKey this (Some model)) as [key|] eqn:Hkey; [|done].
    assert (key ≠ EmptyString) as Hne.
    { cbn in Hpresent. apply String.eqb_neq. by destruct (key =? EmptyString)%string. }
    destruct (chatStream_eq this model messages cb opts1 st key Hkey Hne)
      as (st' & tr & _ & Htr & Heq).
    apply attempt_in_filter in Hin. rewrite Heq in Hin. unfold trace_of in Hin.
    cbn in Hin. rewrite List.filter_app, Htr in Hin. cbn in Hin.
    destruct Hin as [Hin|Hin].
    + by inversion Hin.
    + destruct (rejection _) as [e|]; [destruct (onError cb)|]; done.
  - rewrite chatStream_absent_eq in Hin by done.
    unfold trace_of in Hin. by destruct (onError cb), Hin.
Qed.

End Properties.

(** * Runs on wire text *)

Section Runs.
Import Json Scenario.

(** ** The end-to-end scenario *)

Lemma run_Hel_lo (started : bool) :
  trace_of (deliver all_callbacks
              ((if started then [Start] else []) ++ [Data chunk_Hel; Data chunk_lo])
              initial_state)
  = (if started then [OnStart] else [])
    ++ [OnToken (VStr "Hel"); OnToken (VStr "lo"); OnComplete].
Proof. destruct started; vm_compute; reflexivity. Qed.

(** C4: for the messages [[{role: 'user', content: 'Hi'}]] and the model
    [gemini-pro], on a transport that delivers the chunk with text [Hel]
    and then the chunk with text [lo] and finish reason [STOP] (after its
    on-start call, if it makes one), the callbacks fired are on-token
    [Hel], on-token [lo], on-complete, in this order (after on-start, if
    the transport called it). *)
Theorem scenario_Hel_lo this key opts st (started : bool) :
  getApiKey this (Some model) = Some key →
  key ≠ EmptyString →
  sseClient this (stream_config this model key messages)
    = {| deliveries := (if started then [Start] else [])
                       ++ [Data chunk_Hel; Data chunk_lo];
         rejection := None |} →
  callbacks (trace_of (chatStream this model messages all_callbacks opts st))
  = (if started then [OnStart] else [])
    ++ [OnToken (VStr "Hel"); OnToken (VStr "lo"); OnComplete].
Proof.
  intros Hkey Hne Htransport.
  destruct (chatStream_eq this model messages all_callbacks opts st key Hkey Hne)
    as (st' & tr & Hrun & _ & ->).
  rewrite Htransport in *. cbn [deliveries rejection] in *.
  pose proof (run_Hel_lo started) as Htr. rewrite Hrun in Htr.
  unfold trace_of in *. cbn [snd] in *. subst tr.
  by destruct started.
Qed.

(** The scenario with its first chunk delivered twice: the text [Hel]
    reaches the caller once. *)
Example scenario_Hel_twice :
  exchange [Data chunk_Hel; Data chunk_Hel; Data chunk_lo]
  = [OnToken (VStr "Hel"); OnToken (VStr "lo"); OnComplete].
Proof. vm_compute. reflexivity. Qed.

(** The scenario of the safety block: an on-error with the block reason,
    no on-complete. *)
Example scenario_blocked :
  exchange [Data (wire "{'promptFeedback':{'blockReason':'SAFETY'}}")]
  = [OnError (Error "Content blocked: SAFETY")].
Proof. vm_compute. reflexivity. Qed.

(** ** Where the adapter departs from its specification *)

(** C1 fails: after the two chunks of the scenario a third one of the same
    response, with a text of another length and a stop reason, fires an
    on-token after the on-complete and then a second on-complete; and an
    exchange whose last chunk stops for another reason than [STOP] fires
    no terminal callback at all. *)
Lemma terminal_callbacks_repeat :
  exchange [Data chunk_Hel; Data chunk_lo; Data chunk_again]
  = [OnToken (VStr "Hel"); OnToken (VStr "lo"); OnComplete;
     OnToken (VStr "!!!!"); OnComplete] ∧
  ¬ single_terminal (exchange [Data chunk_Hel; Data chunk_lo; Data chunk_again]) ∧
  exchange [Data chunk_Hel; Data chunk_cut_short]
  = [OnToken (VStr "Hel"); OnToken (VStr "lo")] ∧
  ¬ single_terminal (exchange [Data chunk_Hel; Data chunk_cut_short]).
Proof.
  assert (exchange [Data chunk_Hel; Data chunk_lo; Data chunk_again]
    = [OnToken (VStr "Hel"); OnToken (VStr "lo"); OnComplete;
       OnToken (VStr "!!!!"); OnComplete]) as ->
    by (vm_compute; reflexivity).
  assert (exchange [Data chunk_Hel; Data chunk_cut_short]
    = [OnToken (VStr "Hel"); OnToken (VStr "lo")]) as ->
    by (vm_compute; reflexivity).
  repeat split; try done; intros [Hcount _]; vm_compute in Hcount; discriminate.
Qed.

(** C2 fails: the chunk with fingerprint [r1-3] fires its on-token again
    once a chunk of another response has come in between; and one chunk
    with two text parts fires two on-token calls under one fingerprint. *)
Lemma fingerprint_emitted_twice :
  chunk_log all_callbacks [chunk_Hel; chunk_r2; chunk_Hel] fresh
  = [(Some "r1-3", [OnToken (VStr "Hel")]);
     (Some "r2-1", [OnToken (VStr "x")]);
     (Some "r1-3", [OnToken (VStr "Hel")])] ∧
  ¬ (length (emitting "r1-3"
        (chunk_log all_callbacks [chunk_Hel; chunk_r2; chunk_Hel] fresh)) ≤ 1)%nat ∧
  chunk_log all_callbacks [chunk_two_parts] fresh
  = [(Some "r1-3", [OnToken (VStr "Hel"); OnToken (VStr "lo")])].
Proof.
  split; [vm_compute; reflexivity|]. split; [|vm_compute; reflexivity].
  assert (length (emitting "r1-3"
    (chunk_log all_callbacks [chunk_Hel; chunk_r2; chunk_Hel] fresh)) = 2) as ->
    by (vm_compute; reflexivity).
  lia.
Qed.

(** C3 fails while no id is tracked yet: after a chunk without a response
    id (fingerprint [null-3]) comes a chunk whose id is the text [null].
    The id differs from what is tracked, [null], yet the check keeps the
    record, and the chunk, of fingerprint [null-3] too, is dropped. *)
Lemma first_identity_keeps_record :
  trace_of (onData all_callbacks chunk_anonymous fresh) = [OnToken (VStr "Hel")] ∧
  currentResponseId after_anonymous = VNull ∧
  JSON_parse chunk_null_id = Some parsed_null_id ∧
  get parsed_null_id "responseId" = Some (VStr "null") ∧
  strict_neq (currentResponseId after_anonymous) (VStr "null") = true ∧
  elements (processedChunks (tracked parsed_null_id after_anonymous)) = ["null-3"] ∧
  processedChunks (tracked parsed_null_id after_anonymous) ≠ ∅ ∧
  fingerprint chunk_null_id after_anonymous = Some "null-3" ∧
  onData all_callbacks chunk_null_id after_anonymous
    ≠ onData all_callbacks chunk_null_id initial_state ∧
  trace_of (onData all_callbacks chunk_null_id after_anonymous) = [].
Proof.
  repeat split; try (vm_compute; reflexivity).
  - intros Hempty.
    assert (elements (processedChunks (tracked parsed_null_id after_anonymous)) = [])
      as Hnone by (rewrite Hempty; apply elements_empty).
    vm_compute in Hnone. discriminate.
  - intros Hsame. apply (f_equal trace_of) in Hsame. vm_compute in Hsame. discriminate.
Qed.

(** C5 fails: two chunks that are not JSON are reported one by one, two
    on-error calls in one exchange. *)
Lemma parse_failure_reported_twice :
  JSON_parse chunk_cut = None ∧ JSON_parse chunk_noise = None ∧
  exchange [Data chunk_cut; Data chunk_noise]
  = [OnError SyntaxError; OnError SyntaxError] ∧
  terminal_count (exchange [Data chunk_cut; Data chunk_noise]) ≠ 1.
Proof. repeat split; try (vm_compute; reflexivity). vm_compute. discriminate. Qed.

(** ** The theorems at the chunks of the scenario *)

Lemma dedup_between_resets_witness :
  no_reset all_callbacks [chunk_Hel; chunk_Hel; chunk_lo] fresh = true ∧
  (length (emitting "r1-3"
     (chunk_log all_callbacks [chunk_Hel; chunk_Hel; chunk_lo] fresh)) ≤ 1)%nat.
Proof.
  assert (no_reset all_callbacks [chunk_Hel; chunk_Hel; chunk_lo] fresh = true) as Hquiet
    by (vm_compute; reflexivity).
  split; [exact Hquiet|].
  exact (proj1 (dedup_between_resets all_callbacks
                  [chunk_Hel; chunk_Hel; chunk_lo] fresh "r1-3" Hquiet)).
Defined.

Lemma identity_change_resets_witness :
  tracked parsed_r2 after_Hel
    = {| lastContentLength := 0; processedChunks := ∅; currentResponseId := VStr "r2" |} ∧
  onData all_callbacks chunk_r2 after_Hel = onData all_callbacks chunk_r2 initial_state ∧
  ∃ tr, trace_of (onData all_callbacks chunk_r2 after_Hel) = OnToken (VStr "x") :: tr.
Proof.
  destruct (identity_change_resets all_callbacks chunk_r2 after_Hel parsed_r2 (VStr "r2"))
    as (Hreset & Hfresh & Hemit); try (vm_compute; reflexivity).
  split; [exact Hreset|]. split; [exact Hfresh|].
  apply Hemit.
  - eexists _, _, _, _, _. repeat split; reflexivity.
  - discriminate.
  - eexists. reflexivity.
  - reflexivity.
Defined.

Lemma malformed_chunk_reported_witness :
  onData all_callbacks chunk_noise after_Hel
    = (Returned (), after_Hel, [OnError SyntaxError]) ∧
  trace_of (deliver all_callbacks [Data chunk_Hel; Data chunk_noise; Data chunk_lo] fresh)
    = [OnToken (VStr "Hel"); OnError SyntaxError; OnToken (VStr "lo"); OnComplete].
Proof.
  assert (JSON_parse chunk_noise = None) as Hparse by (vm_compute; reflexivity).
  destruct (malformed_chunk_reported all_callbacks chunk_noise Hparse) as [Hone Hseq].
  split; [exact (Hone after_Hel)|].
  change [Data chunk_Hel; Data chunk_noise; Data chunk_lo]
    with ([Data chunk_Hel] ++ Data chunk_noise :: [Data chunk_lo]).
  rewrite (Hseq [Data chunk_Hel] [Data chunk_lo] fresh). vm_compute. reflexivity.
Defined.

Lemma checkConnection_no_key_witness :
  ∃ r, checkConnection (stub None []) fresh = (Returned r, fresh, []) ∧
       r = {| ok := false; reason := Some "NO_KEY"; message := Some "NO_KEY" |}.
Proof.
  destruct (checkConnection_no_key (stub None []) fresh) as (r & Hrun & Hvalue).
  exists r. split; [exact Hrun|]. apply Hvalue. reflexivity.
Defined.

Lemma chatStream_no_key_witness :
  chatStream (stub None [Data chunk_Hel]) model messages all_callbacks [] fresh
    = (Returned (), fresh, [OnError (Error "NO_KEY")]) ∧
  attempt_count (trace_of (chatStream (stub None [Data chunk_Hel]) model messages
                             all_callbacks [] fresh)) = 0.
Proof.
  apply (chatStream_no_key (stub None [Data chunk_Hel]) model messages all_callbacks [] fresh).
  reflexivity.
Defined.

Lemma chatStream_request_witness :
  ∃ config,
    List.filter is_attempt
      (trace_of (chatStream (stub (Some "key") [Data chunk_Hel]) model messages
                   all_callbacks [] fresh))
      = [StartConnection config] ∧
    url config = "https://generativelanguage.googleapis.com/v1beta/models/gemini-pro:streamGenerateContent?alt=sse".
Proof.
  destruct (chatStream_request (stub (Some "key") [Data chunk_Hel]) model messages
              all_callbacks [] fresh "key") as (config & Hone & Hurl & _).
  - reflexivity.
  - discriminate.
  - exists config. split; [exact Hone|]. rewrite Hurl. reflexivity.
Defined.

Lemma duplicate_fingerprint_silent_witness :
  onData all_callbacks chunk_Hel after_Hel = (Returned (), tracked parsed_Hel after_Hel, []) ∧
  trace_of (onData all_callbacks chunk_same_length
              (after_chunks all_callbacks [chunk_lo]
                 (state_of (onData all_callbacks chunk_Hel fresh)))) = [] ∧
  trace_of (onData all_callbacks chunk_anonymous
              (after_chunks all_callbacks []
                 (state_of (onData all_callbacks chunk_anonymous fresh)))) = [].
Proof.
  destruct (duplicate_fingerprint_silent (num := dec) all_callbacks)
    as (Hdup & Hsame & Hnone).
  split; [|split].
  - apply (Hdup chunk_Hel after_Hel parsed_Hel "r1-3"); [reflexivity| |].
    + vm_compute. reflexivity.
    + apply (bool_decide_unpack _). vm_compute. exact I.
  - apply (Hsame chunk_Hel [chunk_lo] chunk_same_length fresh
             parsed_Hel parsed_same_length "r1" 3);
      try (vm_compute; reflexivity). discriminate.
  - apply (Hnone chunk_anonymous [] chunk_anonymous fresh parsed_anonymous parsed_anonymous
             VUndefined VUndefined "null" 3); vm_compute; reflexivity.
Defined.

Lemma chatStream_ignores_opts_witness :
  chatStream (stub (Some "key") [Data chunk_Hel]) model messages all_callbacks
    [("temperature", VNum (Dec 2 0))] fresh
  = chatStream (stub (Some "key") [Data chunk_Hel]) model messages all_callbacks [] fresh ∧
  temperature (generationConfig (body
    (stream_config (stub (Some "key") [Data chunk_Hel]) model "key" messages))) = 0.7%Q.
Proof.
  destruct (chatStream_ignores_opts (stub (Some "key") [Data chunk_Hel]) model messages
              all_callbacks [("temperature", VNum (Dec 2 0))] [] fresh) as [Hsame Hrequest].
  split; [exact Hsame|].
  apply (Hrequest (stream_config (stub (Some "key") [Data chunk_Hel]) model "key" messages)).
  vm_compute. left. reflexivity.
Defined.

Lemma scenario_Hel_lo_witness :
  exchange [Data chunk_Hel; Data chunk_lo]
  = [OnToken (VStr "Hel"); OnToken (VStr "lo"); OnComplete].
Proof.
  apply (scenario_Hel_lo (stub (Some "key") [Data chunk_Hel; Data chunk_lo])
           "key" [] fresh false); [reflexivity|discriminate|reflexivity].
Defined.

End Runs.

(** * Further properties of the adapter *)

Section Further.
Context {num : Type} `{!JsNumber num} `{!JsonParser num}.

Local Open Scope nat_scope.

Implicit Types (this : provider) (cb : StreamCallbacks) (st : provider_state num).
Implicit Types (v parsedData : value num) (tr : list (effect num)).

Ltac run_M :=
  repeat progress
    unfold or_TypeError, when, cb_onStart, cb_onToken, cb_onComplete, cb_onError,
      mbind, M_bind, mret, M_ret, bind, ret, throw, try_catch, emit, read, write,
      trace_of, state_of, result_of in *.

(** ** The state a chunk leaves *)

Lemma tracked_eq parsedData st responseId :
  get parsedData "responseId" = Some responseId →
  track_response_id parsedData st = (Returned (), tracked parsedData st, []).
Proof.
  intros Hid. unfold tracked, state_of. by rewrite track_response_id_eq, Hid.
Qed.

(** The fingerprint depends on the state through the tracked id alone. *)
Lemma chunk_key_current parsedData st1 st2 :
  currentResponseId st1 = currentResponseId st2 →
  result_of (chunk_key parsedData st1) = result_of (chunk_key parsedData st2).
Proof.
  intros Hcur. unfold chunk_key, observed_length. run_M. rewrite Hcur.
  repeat case_match; simplify_eq/=; done.
Qed.

Lemma fingerprint_unfold rawData parsedData st responseId :
  JSON_parse rawData = Some parsedData →
  get parsedData "responseId" = Some responseId →
  fingerprint rawData st =
  match result_of (chunk_key parsedData (tracked parsedData st)) with
  | Returned k => Some k
  | Thrown _ => None
  end.
Proof.
  intros Hparse Hid. unfold fingerprint. rewrite Hparse. cbn.
  rewrite bind_eq, (tracked_eq _ _ _ Hid).
  destruct (chunk_key_spec parsedData (tracked parsedData st)) as (o & ->).
  by destruct o.
Qed.

Lemma fingerprint_parsed rawData st k :
  fingerprint rawData st = Some k →
  ∃ parsedData responseId,
    JSON_parse rawData = Some parsedData ∧ get parsedData "responseId" = Some responseId.
Proof.
  unfold fingerprint. destruct (JSON_parse rawData) as [parsedData|]; [|done]. cbn.
  rewrite bind_eq, track_response_id_eq.
  destruct (get parsedData "responseId") as [responseId|] eqn:Hid; [|done].
  intros _. by exists parsedData, responseId.
Qed.

(** All of the state after a chunk. *)
Lemma onData_state cb rawData st :
  state_of (onData cb rawData st) =
  match JSON_parse rawData with
  | None => st
  | Some parsedData =>
      match fingerprint rawData st with
      | Some k =>
          {| lastContentLength := lastContentLength (tracked parsedData st);
             processedChunks := {[ k ]} ∪ processedChunks (tracked parsedData st);
             currentResponseId := currentResponseId (tracked parsedData st) |}
      | None => tracked parsedData st
      end
  end.
Proof.
  unfold fingerprint, onData, try_catch, tracked, state_of. rewrite process_chunk_eq.
  destruct (JSON_parse rawData) as [parsedData|]; cbn; [|by rewrite cb_onError_eq].
  rewrite bind_eq.
  destruct (track_response_id parsedData st) as [[[[]|e] st1] tr1];
    [|by rewrite cb_onError_eq].
  destruct (chunk_key_spec parsedData st1) as (o & ->).
  destruct o as [k|e]; [|by rewrite cb_onError_eq]. cbn.
  case_bool_decide as Hin.
  - cbn. destruct st1 as [len rec cur]. cbn in *. f_equal.
    symmetry. apply subseteq_union_1_L. by apply singleton_subseteq_l.
  - match goal with |- context [mbind _ _ ?s] => set (st2 := s) end.
    destruct (checks_spec cb parsedData st2) as (o & toks & fin & -> & _).
    destruct o as [[]|e]; [done|]. by rewrite cb_onError_eq.
Qed.

Lemma tracked_fields parsedData st :
  (processedChunks (tracked parsedData st) = processedChunks st ∨
   processedChunks (tracked parsedData st) = ∅) ∧
  (lastContentLength (tracked parsedData st) = lastContentLength st ∨
   lastContentLength (tracked parsedData st) = 0) ∧
  (currentResponseId (tracked parsedData st) = currentResponseId st ∨
   truthy (currentResponseId (tracked parsedData st)) = true).
Proof.
  unfold tracked, state_of. rewrite track_response_id_eq.
  destruct (get parsedData "responseId") as [responseId|]; cbn; [|auto].
  destruct (truthy responseId) eqn:Hid; [|auto].
  destruct (truthy (currentResponseId st) && strict_neq _ _); cbn; auto.
Qed.

(** ** Redelivery *)

(** A chunk handled twice in a row. *)
Lemma onData_again cb rawData st parsedData responseId :
  JSON_parse rawData = Some parsedData →
  get parsedData "responseId" = Some responseId →
  (truthy responseId = false ∨ ∃ id, responseId = VStr id) →
  is_Some (fingerprint rawData st) →
  onData cb rawData (state_of (onData cb rawData st))
    = (Returned (), state_of (onData cb rawData st), []).
Proof.
  intros Hparse Hid Hshape [k Hfp].
  destruct (onData_fingerprinted cb rawData st parsedData k Hparse Hfp)
    as (_ & Hrec & Hcur).
  set (st' := state_of (onData cb rawData st)) in *.
  assert (tracked parsedData st' = st') as Hsame.
  { destruct (truthy responseId) eqn:Htruthy.
    - destruct Hshape as [?|[id ->]]; [done|].
      assert (id ≠ EmptyString) as Hne.
      { intros ->. done. }
      rewrite (tracked_string_id parsedData st id Hid Hne) in Hcur.
      unfold tracked, state_of. rewrite track_response_id_eq, Hid, Htruthy, Hcur.
      cbn. rewrite String.eqb_refl, andb_false_r. cbn.
      destruct st' as [len rec cur]. cbn in *. by subst.
    - by apply (tracked_no_id parsedData st' responseId). }
  assert (fingerprint rawData st' = Some k) as Hfp'.
  { rewrite (fingerprint_unfold rawData parsedData st' responseId Hparse Hid).
    rewrite (fingerprint_unfold rawData parsedData st responseId Hparse Hid) in Hfp.
    rewrite Hsame. by rewrite (chunk_key_current parsedData st' (tracked parsedData st)). }
  destruct (onData_fingerprinted cb rawData st' parsedData k Hparse Hfp') as (Hdup & _ & _).
  rewrite Hsame in Hdup. apply Hdup. rewrite Hrec.
  apply elem_of_union. left. by apply elem_of_singleton.
Qed.


(** X1: a chunk that is delivered again right after it has been handled
    fires nothing and changes nothing, if its fingerprint could be
    computed the first time and its response id is a text or missing. *)
Theorem redelivery_silent cb rawData st parsedData responseId :
  JSON_parse rawData = Some parsedData →
  get parsedData "responseId" = Some responseId →
  (truthy responseId = false ∨ ∃ id, responseId = VStr id) →
  is_Some (fingerprint rawData st) →
  onData cb rawData (state_of (onData cb rawData st))
    = (Returned (), state_of (onData cb rawData st), []).
Proof. apply onData_again. Qed.

(** ** What the state can hold *)

Lemma onData_size cb rawData st :
  size (processedChunks (state_of (onData cb rawData st))) ≤ S (size (processedChunks st)).
Proof.
  rewrite onData_state.
  destruct (JSON_parse rawData) as [parsedData|]; [|lia].
  assert (size (processedChunks (tracked parsedData st)) ≤ size (processedChunks st)) as Hle.
  { destruct (tracked_fields parsedData st) as ([-> | ->] & _); [lia|].
    rewrite size_empty. lia. }
  destruct (fingerprint rawData st) as [k|]; cbn; [|lia].
  rewrite size_union_alt, size_singleton.
  pose proof (subseteq_size (processedChunks (tracked parsedData st) ∖ {[k]})
                (processedChunks (tracked parsedData st))) as Hsub.
  assert (size (processedChunks (tracked parsedData st) ∖ {[k]})
          ≤ size (processedChunks (tracked parsedData st)))
    by (apply Hsub; by apply subseteq_difference_l).
  lia.
Qed.

Lemma handle_fields cb d st :
  size (processedChunks (state_of (handle cb d st)))
    ≤ size (processedChunks st) + data_count [d] ∧
  (lastContentLength st = 0 → lastContentLength (state_of (handle cb d st)) = 0) ∧
  (currentResponseId st = VNull ∨ truthy (currentResponseId st) = true →
   currentResponseId (state_of (handle cb d st)) = VNull ∨
   truthy (currentResponseId (state_of (handle cb d st))) = true).
Proof.
  destruct d as [|rawData|e]; cbn [handle data_count List.filter length].
  - run_M. destruct (onStart cb); cbn; repeat split; (lia || done).
  - split; [pose proof (onData_size cb rawData st); lia|].
    rewrite onData_state.
    destruct (JSON_parse rawData) as [parsedData|]; [|done].
    destruct (tracked_fields parsedData st) as (_ & Hlen & Hcur).
    destruct (fingerprint rawData st) as [k|]; cbn; (split; [intros; lia | intuition congruence]).
  - rewrite cb_onError_eq. cbn. repeat split; (lia || done).
Qed.

Lemma deliver_fields cb ds st :
  size (processedChunks (state_of (deliver cb ds st)))
    ≤ size (processedChunks st) + data_count ds ∧
  (lastContentLength st = 0 → lastContentLength (state_of (deliver cb ds st)) = 0) ∧
  (currentResponseId st = VNull ∨ truthy (currentResponseId st) = true →
   currentResponseId (state_of (deliver cb ds st)) = VNull ∨
   truthy (currentResponseId (state_of (deliver cb ds st))) = true).
Proof.
  revert st. induction ds as [|d ds IH]; intros st.
  - cbn. repeat split; (lia || done).
  - change (d :: ds) with ([d] ++ ds). rewrite deliver_app.
    repeat match goal with
           | |- context [state_of (?o, ?s, ?t)] => change (state_of (o, s, t)) with s
           end.
    assert (deliver cb [d] st = handle cb d st) as ->.
    { unfold deliver. cbn [for_of]. rewrite bind_eq.
      destruct (handle_spec cb d st) as (st1 & tr1 & -> & _). cbn. by rewrite app_nil_r. }
    destruct (handle_fields cb d st) as (Hsize & Hlen & Hcur).
    destruct (IH (state_of (handle cb d st))) as (IHsize & IHlen & IHcur).
    unfold data_count in *. rewrite List.filter_app, length_app.
    repeat split; [lia|auto..].
Qed.

(** X2: during an exchange the record of fingerprints grows by at most
    one per chunk: when [chatStream] is done it holds no more
    fingerprints than the transport delivered chunks. *)
Theorem processedChunks_bounded this model messages cb opts st key :
  getApiKey this (Some model) = Some key →
  key ≠ EmptyString →
  size (processedChunks (state_of (chatStream this model messages cb opts st)))
    ≤ data_count (deliveries (sseClient this (stream_config this model key messages))).
Proof.
  intros Hkey Hne.
  destruct (chatStream_eq this model messages cb opts st key Hkey Hne)
    as (st' & tr & Hrun & _ & ->).
  destruct (deliver_fields cb
    (deliveries (sseClient this (stream_config this model key messages)))
    initial_state) as (Hsize & _).
  rewrite Hrun in Hsize. unfold state_of in *. cbn in *.
  rewrite size_empty in Hsize. lia.
Qed.

(** X3: the length counter is written but never counts: whatever the
    chunks, it is 0 when [chatStream] is done, and the tracked response id
    is then [null] or a truthy value, never another falsy one. *)
Theorem lastContentLength_stays_zero this model messages cb opts st key :
  getApiKey this (Some model) = Some key →
  key ≠ EmptyString →
  lastContentLength (state_of (chatStream this model messages cb opts st)) = 0 ∧
  (currentResponseId (state_of (chatStream this model messages cb opts st)) = VNull ∨
   truthy (currentResponseId (state_of (chatStream this model messages cb opts st))) = true).
Proof.
  intros Hkey Hne.
  destruct (chatStream_eq this model messages cb opts st key Hkey Hne)
    as (st' & tr & Hrun & _ & ->).
  destruct (deliver_fields cb
    (deliveries (sseClient this (stream_config this model key messages)))
    initial_state) as (_ & Hlen & Hcur).
  rewrite Hrun in Hlen, Hcur. unfold state_of in *. cbn in *. auto.
Qed.

(** ** Where the callbacks of a chunk come from *)

Lemma emit_part_in cb part st e :
  In e (trace_of (emit_part cb part st)) →
  ∃ t, e = OnToken t ∧ get part "text" = Some t ∧ truthy t = true.
Proof.
  unfold emit_part. run_M.
  destruct (get part "text") as [t|] eqn:Ht; cbn; [|done].
  destruct (truthy t) eqn:Htruthy; cbn; [|done].
  destruct (get t "length") as [len|]; cbn; [|done].
  destruct (gt_zero len) as [[]|]; cbn; try done.
  destruct (onToken cb); cbn; [|done].
  intros [<-|[]]. eauto.
Qed.

Lemma for_of_emit_part_in cb content_parts st e :
  In e (trace_of (for_of content_parts (emit_part cb) st)) →
  ∃ part t, In part content_parts ∧ e = OnToken t ∧
            get part "text" = Some t ∧ truthy t = true.
Proof.
  induction content_parts as [|part rest IH]; [done|].
  cbn [for_of]. unfold trace_of in *. rewrite bind_eq.
  pose proof (emit_part_in cb part st e) as Hpart. unfold trace_of in Hpart.
  destruct (emit_part_spec cb part st) as (o & toks & Heq). rewrite Heq in *.
  destruct o as [[]|err]; cbn in *.
  - destruct (for_of rest (emit_part cb) st) as [[o' st'] tr'] eqn:Hrest. cbn in *.
    intros [Hin|Hin]%in_app_or.
    + destruct (Hpart Hin) as (t & ? & ? & ?). exists part, t. auto.
    + destruct (IH Hin) as (p & t & ? & ? & ? & ?). exists p, t. auto.
  - intros Hin. destruct (Hpart Hin) as (t & ? & ? & ?). exists part, t. auto.
Qed.

Lemma is_string_eq (x : value num) s : is_string x s = true → x = VStr s.
Proof. destruct x; cbn; try done. by intros ->%String.eqb_eq. Qed.

Lemma handle_candidates_in cb parsedData st e :
  In e (trace_of (handle_candidates cb parsedData st)) →
  ∃ candidate, first_candidate parsedData = Some candidate ∧
    ((e = OnComplete ∧ get candidate "finishReason" = Some (VStr "STOP")) ∨
     (∃ part t, In part (content_parts candidate) ∧ e = OnToken t ∧
                get part "text" = Some t ∧ truthy t = true)).
Proof.
  unfold handle_candidates, first_candidate, trace_of. rewrite bind_eq.
  destruct (get parsedData "candidates") as [candidates|]; cbn; [|done].
  destruct candidates as [| | | | |[|candidate rest]|]; cbn; try done.
  rewrite bind_eq.
  assert (∀ x, In x (emit_parts cb candidate st).2 →
    ∃ part t, In part (content_parts candidate) ∧ x = OnToken t ∧
              get part "text" = Some t ∧ truthy t = true) as Hparts.
  { intros x. unfold emit_parts, content_parts. rewrite bind_eq.
    destruct (get candidate "content") as [candidate_content|]; cbn; [|done].
    destruct (get_opt candidate_content "parts") eqn:Hp; cbn; try done.
    pose proof (for_of_emit_part_in cb elems st x) as Hin. unfold trace_of in Hin.
    destruct (for_of elems (emit_part cb) st) as [[o' st'] tr']. cbn in *. done. }
  destruct (emit_parts_spec cb candidate st) as (o & toks & Heq). rewrite Heq in *.
  cbn in Hparts. intros Hin. exists candidate. split; [done|].
  destruct o as [[]|err]; cbn in Hin; [|right; auto].
  rewrite bind_eq in Hin.
  destruct (get candidate "finishReason") as [finishReason|] eqn:Hfr; cbn in Hin.
  - run_M. destruct (is_string finishReason "STOP") eqn:Hstop; cbn in Hin.
    + apply is_string_eq in Hstop as ->.
      destruct (onComplete cb); cbn in Hin; apply in_app_or in Hin as [Hin|Hin];
        try (right; by apply Hparts); try done.
      destruct Hin as [<-|[]]. left. done.
    + apply in_app_or in Hin as [Hin|[]]. right. by apply Hparts.
  - apply in_app_or in Hin as [Hin|[]]. right. by apply Hparts.
Qed.

Lemma handle_promptFeedback_in cb parsedData st e :
  In e (trace_of (handle_promptFeedback cb parsedData st)) → ∃ err, e = OnError err.
Proof.
  destruct (handle_promptFeedback_spec cb parsedData st) as (o & fin & -> & Hfin).
  unfold trace_of. cbn. destruct Hfin as [->|(err & -> & _)]; [done|].
  intros [<-|[]]. eauto.
Qed.

(** A callback of a chunk is a token or a completion that the first
    candidate accounts for, or an on-error. *)
Lemma onData_in cb rawData st e :
  In e (trace_of (onData cb rawData st)) →
  (∃ err, e = OnError err) ∨
  ∃ parsedData candidate,
    JSON_parse rawData = Some parsedData ∧
    first_candidate parsedData = Some candidate ∧
    ((e = OnComplete ∧ get candidate "finishReason" = Some (VStr "STOP")) ∨
     (∃ part t, In part (content_parts candidate) ∧ e = OnToken t ∧
                get part "text" = Some t ∧ truthy t = true)).
Proof.
  unfold onData, try_catch, trace_of. rewrite process_chunk_eq.
  assert (∀ err s, In e (cb_onError cb err s).2 → ∃ err', e = OnError err') as Herr.
  { intros err s. rewrite cb_onError_eq. cbn. destruct (onError cb); [|done].
    intros [<-|[]]. eauto. }
  destruct (JSON_parse rawData) as [parsedData|] eqn:Hparse.
  2:{ destruct (cb_onError cb _ st) as [[o s'] t] eqn:Hc. cbn.
      intros Hin. left. eapply Herr. rewrite Hc. exact Hin. }
  destruct (track_response_id parsedData st) as [[[[]|err] st1] tr1].
  2:{ destruct (cb_onError cb _ st1) as [[o s'] t] eqn:Hc. cbn.
      intros Hin. left. eapply Herr. rewrite Hc. exact Hin. }
  destruct (chunk_key parsedData st1) as [[[k|err] st1'] tr1'].
  2:{ destruct (cb_onError cb _ st1) as [[o s'] t] eqn:Hc. cbn.
      intros Hin. left. eapply Herr. rewrite Hc. exact Hin. }
  destruct (bool_decide (k ∈ processedChunks st1)); [done|].
  match goal with |- context [mbind _ _ ?s] => set (st2 := s) end.
  rewrite bind_eq.
  pose proof (handle_candidates_in cb parsedData st2 e) as Hcand.
  pose proof (handle_promptFeedback_in cb parsedData st2 e) as Hblock.
  unfold trace_of in Hcand, Hblock.
  destruct (handle_candidates_spec cb parsedData st2) as (o & toks & fin & Heq & _).
  rewrite Heq in *. cbn in Hcand.
  assert (In e (map OnToken toks ++ fin) →
    (∃ err, e = OnError err) ∨ ∃ parsedData0 candidate,
      Some parsedData = Some parsedData0 ∧
      first_candidate parsedData0 = Some candidate ∧
      ((e = OnComplete ∧ get candidate "finishReason" = Some (VStr "STOP")) ∨
       (∃ part t, In part (content_parts candidate) ∧ e = OnToken t ∧
                  get part "text" = Some t ∧ truthy t = true))) as Hfirst.
  { intros Hin. right. destruct (Hcand Hin) as (candidate & ? & ?).
    exists parsedData, candidate. auto. }
  destruct o as [[]|err].
  - destruct (handle_promptFeedback cb parsedData st2) as [[o' s'] t'] eqn:Hpf.
    cbn in Hblock.
    destruct o' as [[]|err]; cbn.
    + intros [Hin|Hin]%in_app_or; [by apply Hfirst|]. left. by apply Hblock.
    + destruct (cb_onError cb _ s') as [[o s''] t] eqn:Hc. cbn.
      intros [[Hin|Hin]%in_app_or|Hin]%in_app_or; [by apply Hfirst| |].
      * left. by apply Hblock.
      * left. eapply Herr. rewrite Hc. exact Hin.
  - destruct (cb_onError cb _ st2) as [[o s''] t] eqn:Hc. cbn.
    intros [Hin|Hin]%in_app_or; [by apply Hfirst|].
    left. eapply Herr. rewrite Hc. exact Hin.
Qed.

(** X4: on-complete fires only for the finish reason [STOP]: a chunk
    fires it only if its candidates are an array whose first element has
    [finishReason] equal to the text [STOP].  Any other finish reason
    ends the stream without an on-complete. *)
Theorem complete_only_on_STOP cb rawData st :
  In OnComplete (trace_of (onData cb rawData st)) →
  ∃ parsedData candidate,
    JSON_parse rawData = Some parsedData ∧
    first_candidate parsedData = Some candidate ∧
    get candidate "finishReason" = Some (VStr "STOP").
Proof.
  intros Hin. destruct (onData_in cb rawData st _ Hin) as [[err ?]|Hfrom]; [done|].
  destruct Hfrom as (parsedData & candidate & ? & ? & [[_ ?]|(? & ? & _ & ? & _)]);
    [eauto|done].
Qed.

(** X5: every token that reaches the caller is, verbatim, the [text]
    member of a part of the first candidate of the chunk that fired it,
    and it is truthy: the handler makes up no text and emits no empty
    one. *)
Theorem tokens_are_texts cb rawData st t :
  In (OnToken t) (trace_of (onData cb rawData st)) →
  ∃ parsedData candidate part,
    JSON_parse rawData = Some parsedData ∧
    first_candidate parsedData = Some candidate ∧
    In part (content_parts candidate) ∧
    get part "text" = Some t ∧
    truthy t = true.
Proof.
  intros Hin. destruct (onData_in cb rawData st _ Hin) as [[err ?]|Hfrom]; [done|].
  destruct Hfrom as (parsedData & candidate & ? & ? & [[? _]|(part & t' & ? & Heq & ? & ?)]);
    [done|].
  injection Heq as ->. exists parsedData, candidate, part. auto.
Qed.

(** ** All the callbacks of a plain chunk *)

Lemma for_of_plain cb content_parts texts st :
  Forall2 (λ part t, get part "text" = Some (VStr t)) content_parts texts →
  for_of content_parts (emit_part cb) st = (Returned (), st, token_calls cb texts).
Proof.
  unfold token_calls.
  induction 1 as [|part t rest texts' Ht _ IH]; cbn [for_of].
  - by destruct (onToken cb).
  - rewrite bind_eq.
    destruct (String.eqb t EmptyString) eqn:Hempty.
    + apply String.eqb_eq in Hempty as Heq. subst t.
      assert (emit_part cb part st = (Returned (), st, [])) as ->.
      { unfold emit_part. run_M. by rewrite Ht. }
      rewrite IH. cbn. done.
    + apply String.eqb_neq in Hempty as Hne.
      rewrite (emit_part_text cb part t st Ht Hne), IH. cbn. rewrite Hempty.
      by destruct (onToken cb).
Qed.

Lemma handle_promptFeedback_plain cb parsedData blockReason st :
  block_reason parsedData = Some blockReason →
  handle_promptFeedback cb parsedData st = (Returned (), st, blocked_call cb blockReason).
Proof.
  unfold block_reason, handle_promptFeedback, blocked_call. rewrite bind_eq.
  destruct (get parsedData "promptFeedback") as [promptFeedback|]; cbn; [|done].
  destruct (get_opt promptFeedback "blockReason") as [| |b|n|r|l|l] eqn:Hb; cbn;
    try (intros; simplify_eq; done).
  - destruct b; intros; simplify_eq. done.
  - run_M. destruct (num_is_zero n); cbn; intros; simplify_eq. done.
  - intros [= <-]. run_M. destruct (String.eqb r EmptyString); cbn; [done|].
    by destruct (onError cb).
Qed.

(** The chunk goes past the check for duplicates. *)
Lemma onData_fresh cb rawData st parsedData k :
  JSON_parse rawData = Some parsedData →
  fingerprint rawData st = Some k →
  k ∉ processedChunks (tracked parsedData st) →
  onData cb rawData st =
  try_catch (handle_candidates cb parsedData;; handle_promptFeedback cb parsedData)
    (λ error, cb_onError cb (if instanceof_Error error then error
                             else Error "Failed to parse response"))
    {| lastContentLength := lastContentLength (tracked parsedData st);
       processedChunks := {[ k ]} ∪ processedChunks (tracked parsedData st);
       currentResponseId := currentResponseId (tracked parsedData st) |}.
Proof.
  intros Hparse Hfp Hnew.
  destruct (fingerprint_parsed rawData st k Hfp) as (v & responseId & Hv & Hid).
  rewrite Hparse in Hv. injection Hv as <-.
  rewrite (fingerprint_unfold rawData parsedData st responseId Hparse Hid) in Hfp.
  unfold onData, try_catch. rewrite process_chunk_eq, Hparse, (tracked_eq _ _ _ Hid).
  destruct (chunk_key_spec parsedData (tracked parsedData st)) as (o & Hkey).
  rewrite Hkey in *. unfold result_of in Hfp. cbn in Hfp.
  destruct o as [k'|err]; [|done]. injection Hfp as ->.
  by rewrite bool_decide_eq_false_2.
Qed.

(** X6: the callbacks of a plain chunk.  A chunk that is no duplicate,
    whose first candidate has parts that all carry a text, fires an
    on-token for every text that is not empty, in the order of the parts
    and with the text as it is; then on-complete if the finish reason is
    [STOP]; then on-error with [Content blocked: ] and the block reason
    if the chunk has one. *)
Theorem plain_chunk_callbacks cb rawData st parsedData k candidate texts
    finishReason blockReason :
  JSON_parse rawData = Some parsedData →
  fingerprint rawData st = Some k →
  k ∉ processedChunks (tracked parsedData st) →
  first_candidate parsedData = Some candidate →
  Forall2 (λ part t, get part "text" = Some (VStr t)) (content_parts candidate) texts →
  get candidate "finishReason" = Some finishReason →
  block_reason parsedData = Some blockReason →
  trace_of (onData cb rawData st)
    = token_calls cb texts ++ complete_call cb finishReason ++ blocked_call cb blockReason.
Proof.
  intros Hparse Hfp Hnew Hfirst Htexts Hfinish Hblock.
  rewrite (onData_fresh cb rawData st parsedData k Hparse Hfp Hnew).
  match goal with |- context [try_catch _ _ ?s] => set (st2 := s) end.
  unfold try_catch, trace_of. rewrite bind_eq.
  assert (handle_candidates cb parsedData st2
    = (Returned (), st2, token_calls cb texts ++ complete_call cb finishReason)) as ->.
  { unfold handle_candidates, first_candidate in *. rewrite bind_eq.
    destruct (get parsedData "candidates") as [candidates|]; [|done].
    destruct candidates as [| | | | |[|c rest]|]; try done.
    injection Hfirst as ->. cbn. rewrite bind_eq.
    assert (emit_parts cb candidate st2 = (Returned (), st2, token_calls cb texts)) as ->.
    { unfold emit_parts, content_parts in *. rewrite bind_eq.
      destruct (get_total candidate "finishReason" "content" _ Hfinish) as (cc & Hcc & _).
      rewrite Hcc in *. cbn.
      destruct (get_opt cc "parts") eqn:Hp; cbn;
        try (inversion Htexts; subst; unfold token_calls; by destruct (onToken cb)).
      by rewrite (for_of_plain cb elems texts st2 Htexts). }
    rewrite bind_eq, Hfinish. cbn. unfold complete_call. run_M.
    destruct (is_string finishReason "STOP"), (onComplete cb); cbn;
      by rewrite ?app_nil_r. }
  rewrite (handle_promptFeedback_plain cb parsedData blockReason st2 Hblock).
  cbn. by rewrite app_assoc.
Qed.

(** X7: a chunk without candidates (none, or not an array, or an empty
    one) that is no duplicate fires nothing but the report of its block
    reason, if it has one: an on-error with [Content blocked: ] and the
    reason, and never an on-complete. *)
Theorem blocked_chunk_callbacks cb rawData st parsedData k blockReason :
  JSON_parse rawData = Some parsedData →
  fingerprint rawData st = Some k →
  k ∉ processedChunks (tracked parsedData st) →
  first_candidate parsedData = None →
  block_reason parsedData = Some blockReason →
  trace_of (onData cb rawData st) = blocked_call cb blockReason.
Proof.
  intros Hparse Hfp Hnew Hfirst Hblock.
  rewrite (onData_fresh cb rawData st parsedData k Hparse Hfp Hnew).
  match goal with |- context [try_catch _ _ ?s] => set (st2 := s) end.
  unfold try_catch, trace_of. rewrite bind_eq.
  assert (handle_candidates cb parsedData st2 = (Returned (), st2, [])) as ->.
  { unfold handle_candidates, first_candidate, block_reason in *. rewrite bind_eq.
    destruct (get parsedData "promptFeedback") as [pf|] eqn:Hpf; [|done].
    destruct (get_total parsedData "promptFeedback" "candidates" _ Hpf) as (c & Hc & _).
    rewrite Hc in *. cbn. by destruct c as [| | | | |[|c rest]|]. }
  by rewrite (handle_promptFeedback_plain cb parsedData blockReason st2 Hblock).
Qed.

(** ** Exchanges *)

(** X8: nothing of an earlier exchange leaks into the next: with a
    credential, what [chatStream] does and the state it leaves do not
    depend on the state it starts from. *)
Theorem chatStream_forgets_state this model messages cb opts st1 st2 :
  key_present (getApiKey this (Some model)) = true →
  chatStream this model messages cb opts st1 = chatStream this model messages cb opts st2.
Proof.
  intros Hpresent.
  destruct (getApiKey this (Some model)) as [key|] eqn:Hkey; [|done].
  assert (key ≠ EmptyString) as Hne.
  { cbn in Hpresent. apply String.eqb_neq. by destruct (key =? EmptyString)%string. }
  destruct (chatStream_eq this model messages cb opts st1 key Hkey Hne)
    as (st' & tr & Hrun & _ & ->).
  destruct (chatStream_eq this model messages cb opts st2 key Hkey Hne)
    as (st'' & tr' & Hrun' & _ & ->).
  rewrite Hrun in Hrun'. by injection Hrun' as <- <-.
Qed.

(** X9: errors of the transport reach the caller as they are.  An error
    the transport hands to its handler fires on-error with that error,
    touches no field, and the chunks delivered after it are handled as if
    it had not been there; a rejected connection attempt is reported
    once, with the error it rejects with, after everything that was
    delivered. *)
Theorem transport_errors_forwarded cb e :
  (∀ before after st,
     trace_of (deliver cb (before ++ Failure e :: after) st) =
     trace_of (deliver cb before st)
     ++ (if onError cb then [OnError e] else [])
     ++ trace_of (deliver cb after (state_of (deliver cb before st)))) ∧
  (∀ this model messages opts st key,
     getApiKey this (Some model) = Some key →
     key ≠ EmptyString →
     rejection (sseClient this (stream_config this model key messages)) = Some e →
     trace_of (chatStream this model messages cb opts st) =
     StartConnection (stream_config this model key messages)
     :: trace_of (deliver cb
          (deliveries (sseClient this (stream_config this model key messages)))
          initial_state)
     ++ (if onError cb then [OnError e] else [])).
Proof.
  split.
  - intros before after st.
    rewrite deliver_app. unfold trace_of at 1. cbn [snd]. f_equal.
    set (st1 := state_of (deliver cb before st)).
    unfold deliver. cbn [for_of]. rewrite bind_eq. cbn [handle].
    rewrite cb_onError_eq.
    destruct (for_of after (handle cb) st1) as [[o st2] tr]. done.
  - intros this model messages opts st key Hkey Hne Hrejected.
    destruct (chatStream_eq this model messages cb opts st key Hkey Hne)
      as (st' & tr & Hrun & _ & ->).
    by rewrite Hrun, Hrejected.
Qed.

(** X10: [checkConnection] tells what [chatStream] will do with the
    credential, and nothing about the connection: for a model whose
    credential is the provider's, its [ok] is true exactly when
    [chatStream] attempts a connection, false exactly when [chatStream]
    fails with [NO_KEY] before attempting one. *)
Theorem checkConnection_agrees_with_chatStream this model messages cb opts st :
  getApiKey this (Some model) = getApiKey this None →
  ∃ r, checkConnection this st = (Returned r, st, []) ∧
       attempt_count (trace_of (chatStream this model messages cb opts st))
         = (if ok r then 1 else 0).
Proof.
  intros Hsame. unfold checkConnection. rewrite <- Hsame.
  destruct (key_present (getApiKey this (Some model))) eqn:Hpresent; cbn.
  - eexists. split; [done|]. cbn.
    destruct (getApiKey this (Some model)) as [key|] eqn:Hkey; [|done].
    assert (key ≠ EmptyString) as Hne.
    { cbn in Hpresent. apply String.eqb_neq. by destruct (key =? EmptyString)%string. }
    destruct (chatStream_eq this model messages cb opts st key Hkey Hne)
      as (st' & tr & _ & Htr & ->).
    unfold attempt_count, trace_of. cbn. rewrite List.filter_app, Htr. cbn.
    by destruct (rejection _) as [e|]; [destruct (onError cb)|].
  - eexists. split; [done|]. cbn.
    rewrite chatStream_absent_eq by done. by destruct (onError cb).
Qed.

(** X11: the base URL loses exactly one final slash, if it has one, and
    nothing else: a base URL that does not end in a slash is taken as it
    is, and of two final slashes one stays. *)
Theorem strip_trailing_slash_spec s :
  (∀ b, s = b +:+ "/" → strip_trailing_slash s = b) ∧
  ((∀ b, s ≠ b +:+ "/") → strip_trailing_slash s = s).
Proof.
  split.
  - intros b ->. apply strip_trailing_slash_app.
  - induction s as [|c s IH]; [done|]. intros Hno.
    destruct s as [|c' s'].
    + cbn. destruct (Ascii.eqb c "/") eqn:Hc; [|done].
      apply Ascii.eqb_eq in Hc as ->. by destruct (Hno EmptyString).
    + change (strip_trailing_slash (String c (String c' s')))
        with (String c (strip_trailing_slash (String c' s'))).
      rewrite IH; [done|]. intros b Hb. apply (Hno (String c b)). cbn. by rewrite Hb.
Qed.

(** ** The catalog and the lifecycle *)

(** X12: [fetchModels] answers [null] exactly when the static catalog has
    no list for ['Google AI']; an empty list gives an empty list, not
    [null].  Otherwise it lists the catalog's models one for one and in
    order, each named by its id, with its label, and with that id as its
    only alias. *)
Theorem fetchModels_spec (getStaticModels : string → option (list StaticModel)) :
  (fetchModels getStaticModels = None ↔ getStaticModels "Google AI" = None) ∧
  (∀ list, getStaticModels "Google AI" = Some list →
     ∃ infos, fetchModels getStaticModels = Some infos ∧
       length infos = length list ∧
       map info_name infos = map static_id list ∧
       map info_label infos = map static_label list ∧
       Forall (λ i, info_aliases i = [info_name i]) infos).
Proof.
  unfold fetchModels. split.
  - by destruct (getStaticModels "Google AI").
  - intros list ->. eexists. split; [done|].
    rewrite length_map, !map_map. cbn. repeat split; try done.
    apply Forall_map. by apply Forall_true.
Qed.

(** X13: [cancelStream] only tells the transport to stop and [destroy]
    makes the adapter new again.  After [cancelStream] a chunk that the
    transport still delivers is handled as before the call, so a
    redelivered one stays silent; after [destroy] the transport has been
    destroyed and every chunk is handled as the first chunk of a new
    adapter, whatever had been seen. *)
Theorem lifecycle_state cb rawData st parsedData responseId :
  JSON_parse rawData = Some parsedData →
  get parsedData "responseId" = Some responseId →
  (truthy responseId = false ∨ ∃ id, responseId = VStr id) →
  is_Some (fingerprint rawData st) →
  cancelStream (state_of (onData cb rawData st))
    = (state_of (onData cb rawData st), [SseStopConnection]) ∧
  trace_of (onData cb rawData (cancelStream (state_of (onData cb rawData st))).1) = [] ∧
  destroy (state_of (onData cb rawData st)) = (initial_state, [SseDestroy]) ∧
  onData cb rawData (destroy (state_of (onData cb rawData st))).1
    = onData cb rawData initial_state.
Proof.
  intros Hparse Hid Hshape Hfp. split; [done|]. split; [|done]. cbn.
  by rewrite (onData_again cb rawData st parsedData responseId).
Qed.

End Further.

(** * Properties of [mapToProviderWithStatus] *)

Section TransformProperties.
Import Transform.

Local Open Scope nat_scope.

(** X14: the two status members of the result say the same thing:
    [isConnected] holds exactly for the status [CONNECTED], and
    [displayStatus] names the status, with [UNKNOWN] for the status
    [UNKNOWN] and for any that the function does not name. *)
Theorem status_members_agree (entity : ProviderEntity) :
  (isConnected (mapToProviderWithStatus entity) = true ↔ status entity = CONNECTED) ∧
  (displayStatus (mapToProviderWithStatus entity) = "CONNECTED"
     ↔ isConnected (mapToProviderWithStatus entity) = true) ∧
  (displayStatus (mapToProviderWithStatus entity) = "NOT_CONNECTED"
     ↔ status entity = NOT_CONNECTED) ∧
  (displayStatus (mapToProviderWithStatus entity) = "NO_KEY" ↔ status entity = NO_KEY) ∧
  (displayStatus (mapToProviderWithStatus entity) = "CONNECTING"
     ↔ status entity = CONNECTING) ∧
  (displayStatus (mapToProviderWithStatus entity) = "UNKNOWN"
     ↔ status entity = UNKNOWN ∨ ∃ tag, status entity = OtherStatus tag).
Proof.
  cbn. destruct (status entity); cbn; repeat split; intros; try done;
    try (destruct_or?; destruct_and?; done); eauto.
  all: by destruct H as [?|[? ?]].
Qed.

Lemma or_null_not_empty x k : or_null x = Some k → k ≠ EmptyString ∧ x = Some k.
Proof.
  destruct x as [k'|]; cbn; [|done].
  destruct (String.eqb k' EmptyString) eqn:Hk; [done|].
  intros [= <-]. split; [|done]. by apply String.eqb_neq.
Qed.


(** ** The icon path *)











(** ** The keys *)

(** X17: the provider's key is given on only if it is not empty, which is
    when the adapter counts a key as present, so the result never holds an
    empty default key.  The keys of the models are given on as they are,
    an empty one too, and the models keep their number, order and
    names; without a list of models the result has an empty one. *)
Theorem keys_mapped (entity : ProviderEntity) :
  default_api_key (mapToProviderWithStatus entity) ≠ Some EmptyString ∧
  key_present (default_api_key (mapToProviderWithStatus entity))
    = key_present (apiKey entity) ∧
  (∀ k, k ≠ EmptyString → apiKey entity = Some k →
        default_api_key (mapToProviderWithStatus entity) = Some k) ∧
  map api_key (pw_models (mapToProviderWithStatus entity))
    = map model_apiKey (default [] (models entity)) ∧
  map mk_name (pw_models (mapToProviderWithStatus entity))
    = map model_name (default [] (models entity)).
Proof.
  cbn. repeat split.
  - intros Hk. by apply or_null_not_empty in Hk as [? _].
  - destruct (apiKey entity) as [k|]; cbn; [|done].
    destruct (String.eqb k EmptyString) eqn:Hk; cbn; by rewrite ?Hk.
  - intros k Hne ->. cbn. apply String.eqb_neq in Hne. by rewrite Hne.
  - by rewrite map_map.
  - by rewrite map_map.
Qed.

End TransformProperties.

(** * Properties of the dialog that adds documents *)

Section DialogProperties.
Import Dialog.

Local Open Scope nat_scope.

(** ** The selection *)

Lemma has_In s x : has s x = true ↔ In x s.
Proof.
  unfold has. rewrite existsb_exists. split.
  - intros (y & Hy & ->%String.eqb_eq). done.
  - intros Hx. exists x. split; [done|apply String.eqb_refl].
Qed.

Lemma has_false s x : has s x = false ↔ ¬ In x s.
Proof. rewrite <- has_In. by destruct (has s x). Qed.

Lemma filter_absent x s :
  ¬ In x s → List.filter (λ y, negb (String.eqb x y)) s = s.
Proof.
  induction s as [|y s IH]; [done|]. cbn. intros Hno.
  destruct (String.eqb x y) eqn:Hxy.
  - apply String.eqb_eq in Hxy. destruct Hno. by left.
  - cbn. rewrite IH; [done|]. intros ?. apply Hno. by right.
Qed.

Lemma filter_present x s :
  NoDup s → In x s → List.filter (λ y, negb (String.eqb x y)) s ++ [x] ≡ₚ s.
Proof.
  induction 1 as [|y s Hy Hs IH]; [done|]. cbn.
  destruct (String.eqb x y) eqn:Hxy; cbn.
  - apply String.eqb_eq in Hxy as ->. intros _.
    rewrite filter_absent by (by rewrite <- list_elem_of_In).
    symmetry. apply Permutation_cons_append.
  - intros [->|Hin]; [by rewrite String.eqb_refl in Hxy|].
    by rewrite IH.
Qed.

(** X18: [toggle] flips the membership of its id and of no other, and
    keeps the selection free of repetitions.  Toggling an id twice gives
    the selection back as a set; its order comes back too if the id was
    not selected, while a selected id moves to the end of the order in
    which the files are handled. *)
Theorem toggle_spec x prev :
  NoDup prev →
  NoDup (toggle x prev) ∧
  has (toggle x prev) x = negb (has prev x) ∧
  (∀ y, y ≠ x → has (toggle x prev) y = has prev y) ∧
  toggle x (toggle x prev) ≡ₚ prev ∧
  (has prev x = false → toggle x (toggle x prev) = prev) ∧
  (has prev x = true →
   toggle x (toggle x prev) = List.filter (λ y, negb (String.eqb x y)) prev ++ [x]).
Proof.
  intros Hnodup.
  assert (has (List.filter (λ y, negb (String.eqb x y)) prev) x = false) as Hgone.
  { apply has_false. rewrite filter_In, String.eqb_refl. by intros [_ ?]. }
  assert (has (prev ++ [x]) x = true) as Hthere.
  { apply has_In, in_or_app. right. by left. }
  unfold toggle at 1 2 3.
  destruct (has prev x) eqn:Hhas.
  - apply has_In in Hhas as Hin.
    split; [by apply NoDup_ListNoDup, List.NoDup_filter, NoDup_ListNoDup|].
    split; [done|]. split.
    { intros y Hy. apply eq_true_iff_eq. rewrite !has_In, filter_In.
      split; [by intros [? _]|]. intros ?. split; [done|].
      apply negb_true_iff, String.eqb_neq. congruence. }
    unfold toggle. rewrite Hhas, Hgone.
    split; [by apply filter_present|]. by split.
  - apply has_false in Hhas as Hout.
    split.
    { apply NoDup_app. split; [done|]. split; [|apply NoDup_singleton].
      intros y Hy ->%list_elem_of_singleton. by apply Hout, list_elem_of_In. }
    split; [done|]. split.
    { intros y Hy. apply eq_true_iff_eq. rewrite !has_In, in_app_iff. cbn.
      split; [|by left]. intros [?|[->|[]]]; done. }
    unfold toggle. rewrite Hhas, Hthere, List.filter_app. cbn.
    rewrite String.eqb_refl. cbn. rewrite app_nil_r, filter_absent by done.
    by repeat split.
Qed.

(** ** The files on offer *)

Lemma chat_entries_In index chatFileData f :
  In f (chat_entries index chatFileData) →
  ∃ i c, chatFileData !! i = Some c ∧
    f = {| id := "chat_" +:+ conversation_id c +:+ "_" +:+ pretty (index + i);
           name := fileName c;
           type := chat;
           source := None;
           conversationId := Some (conversation_id c);
           isAlreadyInKB := false |}.
Proof.
  revert index. induction chatFileData as [|c rest IH]; intros index; [done|].
  cbn. intros [<-|Hin].
  - exists 0, c. by rewrite Nat.add_0_r.
  - destruct (IH _ Hin) as (i & c' & Hi & ->).
    exists (S i), c'. split; [done|]. by rewrite Nat.add_succ_r.
Qed.


(** ** The ids of the chat files *)

Lemma free_of_app c a b : free_of c (a +:+ b) = free_of c a && free_of c b.
Proof. induction a as [|c' a IH]; [done|]. simpl. by rewrite IH, andb_assoc. Qed.

Lemma pretty_N_go_free x s :
  free_of "_" s = true → free_of "_" (pretty_N_go x s) = true.
Proof.
  revert s. induction (N.lt_wf_0 x) as [x _ IH]; intros s Hs.
  assert (x = 0 ∨ 0 < x)%N as [->|?] by lia; [by rewrite pretty_N_go_0|].
  rewrite pretty_N_go_step by done. apply IH; [by apply N.div_lt|].
  cbn [free_of]. rewrite Hs, andb_true_r.
  unfold pretty_N_char. by repeat case_match.
Qed.

Lemma pretty_nat_free (n : nat) : free_of "_" (pretty n) = true.
Proof.
  unfold pretty, pretty_nat, pretty, pretty_N.
  case_decide; [done|]. by apply pretty_N_go_free.
Qed.

Lemma append_nil s : EmptyString +:+ s = s.
Proof. done. Qed.

Lemma append_cons c a s : String c a +:+ s = String c (a +:+ s).
Proof. done. Qed.

(** A text is cut at its last [_] in one way only. *)
Lemma last_underscore a b d1 d2 :
  free_of "_" d1 = true → free_of "_" d2 = true →
  a +:+ "_" +:+ d1 = b +:+ "_" +:+ d2 → a = b ∧ d1 = d2.
Proof.
  intros H1 H2. revert b. induction a as [|c a IH]; intros [|c' b];
    rewrite ?append_cons, ?append_nil.
  - by intros [= ->].
  - intros [= _ Hd]. rewrite Hd, !free_of_app in H1.
    change (free_of "_" "_") with false in H1.
    by rewrite andb_false_r in H1.
  - intros [= _ Hd]. rewrite <- Hd, !free_of_app in H2.
    change (free_of "_" "_") with false in H2.
    by rewrite andb_false_r in H2.
  - intros [= -> Hrest]. by destruct (IH b Hrest) as [-> ->].
Qed.

(** X20: the chat files on offer have pairwise different ids, also when
    files share their conversation or their name, or when the id of one
    conversation ends like the position of another file: the position
    after the last [_] tells them apart. *)
Theorem chat_ids_distinct index chatFileData :
  NoDup (map id (chat_entries index chatFileData)).
Proof.
  revert index. induction chatFileData as [|c rest IH]; intros index; cbn.
  - apply NoDup_nil_2.
  - apply NoDup_cons_2; [|apply IH].
    intros Hin. apply list_elem_of_In, in_map_iff in Hin as (f & Hid & Hf).
    apply chat_entries_In in Hf as (i & c' & _ & ->). cbn in Hid.
    injection Hid as Hid.
    apply last_underscore in Hid as [_ Hid]; [|apply pretty_nat_free..].
    apply (inj pretty) in Hid. lia.
Qed.

(** ** Confirming the selection *)

Section ConfirmProperties.
Context {number : Type}.
Implicit Types (service : string → string → added number) (st : confirm_state number).

Lemma added_ids_app (a b : list (action number)) :
  added_ids (a ++ b) = added_ids a ++ added_ids b.
Proof. induction a as [|[] a IH]; cbn; by rewrite ?IH. Qed.

Lemma reported_spec kb n i (rs : list (number * string)) :
  i < n →
  added_ids (flat_map (λ '(p, msg), [SetProgress (Partial i n p); SetProgressMessage msg]) rs)
    = [] ∧
  Forall (loop_call kb n)
    (flat_map (λ '(p, msg), [SetProgress (Partial i n p); SetProgressMessage msg]) rs).
Proof.
  intros Hi. induction rs as [|[p msg] rs [IH1 IH2]]; cbn; [by split|].
  split; [done|]. by repeat constructor.
Qed.

Lemma add_selected_spec service kb files n i ids :
  i + length ids = n →
  Forall (loop_call kb n) (add_selected service kb files n i ids).1 ∧
  added_ids (add_selected service kb files n i ids).1
    = attempted service kb (List.filter (selects_document files) ids) ∧
  (add_selected service kb files n i ids).2
    = forallb (λ d, resolved (service d kb)) (List.filter (selects_document files) ids).
Proof.
  revert i. induction ids as [|x ids IH]; intros i Hn; [by repeat split|].
  cbn [length] in Hn.
  destruct (IH (S i)) as (IHcalls & IHids & IHfinished); [lia|].
  cbn [add_selected List.filter].
  assert (selects_document files x
          = match List.find (λ f, String.eqb (id f) x) files with
            | Some file => match type file with document => true | chat => false end
            | None => false
            end) as -> by done.
  destruct (List.find _ files) as [file|]; [|by repeat split].
  destruct (type file).
  - destruct (reported_spec kb n i (reports (service x kb))) as (Hnone & Hreported); [lia|].
    cbn [attempted forallb]. destruct (resolved (service x kb)).
    + destruct (add_selected service kb files n (S i) ids) as [calls finished].
      cbn in *. rewrite added_ids_app, Hnone, IHids. repeat split; [|done..].
      repeat constructor. by apply Forall_app.
    + cbn. rewrite Hnone. repeat split. by repeat constructor.
  - destruct (add_selected service kb files n (S i) ids) as [calls finished].
    cbn in *. repeat split; [|done..]. by repeat constructor.
Qed.

Lemma handleConfirm_eq service kb onSuccess files selected :
  selected ≠ [] →
  ∃ calls,
    Forall (loop_call kb (length selected)) calls ∧
    added_ids calls
      = attempted service kb (List.filter (selects_document files) selected) ∧
    handleConfirm service kb onSuccess files selected =
    SetAdding true :: calls
    ++ closing_calls onSuccess
         (forallb (λ d, resolved (service d kb))
            (List.filter (selects_document files) selected))
    ++ reset_calls.
Proof.
  intros Hne. unfold handleConfirm.
  destruct (add_selected_spec service kb files (length selected) 0 selected)
    as (Hcalls & Hids & Hfinished); [done|].
  destruct (add_selected service kb files (length selected) 0 selected)
    as [calls finished].
  cbn in *. subst finished. exists calls. by destruct selected.
Qed.

Lemma state_after_reset st (calls : list (action number)) :
  state_after st (calls ++ reset_calls)
    = {| adding := false; shown_progress := Percent0;
         progressMessage := EmptyString; selected_ids := [] |}.
Proof. unfold state_after. by rewrite fold_left_app. Qed.

Lemma attempted_prefix service kb documents :
  ∃ rest, documents = attempted service kb documents ++ rest ∧
    (forallb (λ d, resolved (service d kb)) documents = true → rest = []).
Proof.
  induction documents as [|d documents (rest & IH & Hrest)]; [by exists []|].
  cbn. destruct (resolved (service d kb)).
  - exists rest. cbn. split; [by rewrite <- IH|done].
  - by exists documents.
Qed.

(** Where a call of a run comes from. *)
Lemma In_run (a : action number) kb n calls closing :
  Forall (loop_call kb n) calls →
  In a (SetAdding true :: calls ++ closing ++ reset_calls) ↔
  a = SetAdding true ∨ (In a calls ∧ loop_call kb n a) ∨ In a closing ∨ In a reset_calls.
Proof.
  intros Hcalls. rewrite Forall_forall in Hcalls.
  cbn [In]. rewrite !in_app_iff. split.
  - intros [?|[?|[?|?]]]; auto. right. left. split; [done|].
    by apply Hcalls, list_elem_of_In.
  - intros [?|[[? _]|[?|?]]]; auto.
Qed.

Lemma In_closing (a : action number) onSuccess finished :
  In a (closing_calls onSuccess finished) ↔
  (finished = true ∧
   (a = SetProgress Percent100 ∨ a = SetProgressMessage "完成" ∨
    a = Toast toast_success "文档已成功添加并索引" ∨
    (onSuccess = true ∧ a = OnSuccess) ∨ a = OnOpenChange false)) ∨
  (finished = false ∧ a = Toast toast_error "添加过程出错").
Proof.
  destruct finished, onSuccess; cbn; intuition (try discriminate; auto).
Qed.

Lemma In_reset (a : action number) :
  In a reset_calls ↔
  a = SetAdding false ∨ a = SetProgress Percent0 ∨
  a = SetProgressMessage EmptyString ∨ a = SetSelected [].
Proof. cbn; intuition (try discriminate; auto). Qed.

(** X21: however adding goes, [handleConfirm] leaves the dialog idle: when
    it is done, also after a failure of the knowledge service, [adding] is
    false, the progress is 0, the message is empty and nothing is
    selected any more.  With nothing selected it only shows an error
    toast and sets nothing.  While it runs the progress is only ever set
    to 0, to 100, or to the share of a file whose position is within the
    selection, counted against the size of the selection. *)
Theorem handleConfirm_leaves_idle service kb onSuccess files selected st :
  (selected = [] →
   handleConfirm service kb onSuccess files selected = [Toast toast_error "请选择文件"] ∧
   state_after st (handleConfirm service kb onSuccess files selected) = st) ∧
  (selected ≠ [] →
   state_after st (handleConfirm service kb onSuccess files selected)
     = {| adding := false; shown_progress := Percent0;
          progressMessage := EmptyString; selected_ids := [] |} ∧
   ∀ p, In (SetProgress p) (handleConfirm service kb onSuccess files selected) →
     p = Percent0 ∨ p = Percent100 ∨
     ∃ i q, p = Partial i (length selected) q ∧ i < length selected).
Proof.
  split; [by intros ->|]. intros Hne.
  destruct (handleConfirm_eq service kb onSuccess files selected Hne)
    as (calls & Hcalls & _ & ->).
  split.
  - rewrite app_comm_cons, app_assoc. apply state_after_reset.
  - intros p Hin. apply (In_run _ kb (length selected)) in Hin; [|done].
    rewrite In_closing, In_reset in Hin.
    destruct Hin as [?|[[_ Hloop]|[Hclosing|Hreset]]]; [done|..].
    + cbn in Hloop. destruct p as [| |i n q]; try done. destruct Hloop as [-> ?].
      right. right. by exists i, q.
    + right. left.
      destruct Hclosing as [[_ [Heq|[?|[?|[[_ ?]|?]]]]]|[_ ?]]; try done.
      by injection Heq.
    + left. destruct Hreset as [?|[Heq|[?|?]]]; try done. by injection Heq.
Qed.

(** X22: which documents reach the knowledge service, and how the run
    ends.  The selected ids that name a listed document are handed over
    in the order of the selection, each for this knowledge base, up to
    and including the first whose call fails; no chat file and no unknown
    id is handed over.  The dialog is closed, with the toast of success,
    exactly when no call failed, [onSuccess] is called exactly then if
    there is one, and the toast of failure is shown exactly when a call
    failed. *)
Theorem documents_handed_over service kb onSuccess files selected :
  selected ≠ [] →
  added_ids (handleConfirm service kb onSuccess files selected)
    = attempted service kb (List.filter (selects_document files) selected) ∧
  (∃ rest, List.filter (selects_document files) selected
             = added_ids (handleConfirm service kb onSuccess files selected) ++ rest ∧
     (forallb (λ d, resolved (service d kb))
        (List.filter (selects_document files) selected) = true → rest = [])) ∧
  (∀ d k, In (AddDocument d k) (handleConfirm service kb onSuccess files selected) →
     k = kb) ∧
  (∀ o, In (OnOpenChange o) (handleConfirm service kb onSuccess files selected) ↔
     o = false ∧
     forallb (λ d, resolved (service d kb))
       (List.filter (selects_document files) selected) = true) ∧
  (In OnSuccess (handleConfirm service kb onSuccess files selected) ↔
     onSuccess = true ∧
     forallb (λ d, resolved (service d kb))
       (List.filter (selects_document files) selected) = true) ∧
  (In (Toast toast_success "文档已成功添加并索引")
      (handleConfirm service kb onSuccess files selected) ↔
     forallb (λ d, resolved (service d kb))
       (List.filter (selects_document files) selected) = true) ∧
  (In (Toast toast_error "添加过程出错")
      (handleConfirm service kb onSuccess files selected) ↔
     forallb (λ d, resolved (service d kb))
       (List.filter (selects_document files) selected) = false).
Proof.
  intros Hne.
  destruct (handleConfirm_eq service kb onSuccess files selected Hne)
    as (calls & Hcalls & Hids & ->).
  set (finished := forallb (λ d, resolved (service d kb))
                     (List.filter (selects_document files) selected)).
  assert (added_ids (SetAdding true :: calls
                     ++ closing_calls onSuccess finished ++ reset_calls)
          = attempted service kb (List.filter (selects_document files) selected))
    as Hadded.
  { cbn [added_ids]. rewrite !added_ids_app, Hids.
    destruct finished, onSuccess; cbn; by rewrite app_nil_r. }
  rewrite Hadded. split; [done|]. split; [apply attempted_prefix|].
  split; [|split; [|split; [|split]]].
  - intros d k Hin. apply (In_run _ kb (length selected)) in Hin; [|done].
    rewrite In_closing, In_reset in Hin.
    destruct Hin as [?|[[_ Hloop]|[Hclosing|Hreset]]]; [done|done|..];
      intuition discriminate.
  - intros o. rewrite (In_run _ kb (length selected)), In_closing, In_reset by done.
    cbn [loop_call]. split.
    + intros [?|[[_ []]|[[[? [?|[?|[?|[[_ ?]|Heq]]]]]|[_ ?]]|[?|[?|[?|?]]]]]];
        try done.
      by injection Heq as <-.
    + intros [-> ->]. right. right. left. left. split; [done|]. by repeat right.
  - rewrite (In_run _ kb (length selected)), In_closing, In_reset by done.
    cbn [loop_call]. split.
    + intros [?|[[_ []]|[[[? [?|[?|[?|[[? _]|?]]]]]|[_ ?]]|[?|[?|[?|?]]]]]];
        done.
    + intros [-> ->]. right. right. left. left. split; [done|].
      right. right. right. left. done.
  - rewrite (In_run _ kb (length selected)), In_closing, In_reset by done.
    cbn [loop_call]. split.
    + intros [?|[[_ []]|[[[? _]|[_ ?]]|[?|[?|[?|?]]]]]]; done.
    + intros ->. right. right. left. left. split; [done|]. right. right. by left.
  - rewrite (In_run _ kb (length selected)), In_closing, In_reset by done.
    cbn [loop_call]. split.
    + intros [?|[[_ []]|[[[_ [?|[?|[?|[[_ ?]|?]]]]]|[? _]]|[?|[?|[?|?]]]]]]; done.
    + intros ->. right. right. left. by right.
Qed.

(** X23: a selection without a listed document, one of chat files only
    say, still ends as a success: nothing is handed to the knowledge
    service, and yet the toast says that the documents were added and
    indexed, and the dialog is closed. *)
Theorem nothing_added_yet_success service kb onSuccess files selected :
  selected ≠ [] →
  (∀ x, In x selected → selects_document files x = false) →
  added_ids (handleConfirm service kb onSuccess files selected) = [] ∧
  In (Toast toast_success "文档已成功添加并索引")
     (handleConfirm service kb onSuccess files selected) ∧
  In (OnOpenChange false) (handleConfirm service kb onSuccess files selected).
Proof.
  intros Hne Hnone.
  assert (List.filter (selects_document files) selected = []) as Hempty.
  { clear Hne. induction selected as [|x l IH]; [done|]. cbn.
    rewrite (Hnone x) by (by left). apply IH. intros y Hy. apply Hnone. by right. }
  destruct (handleConfirm_eq service kb onSuccess files selected Hne)
    as (calls & Hcalls & Hids & ->).
  rewrite Hempty in *. cbn [forallb attempted added_ids] in *.
  rewrite !added_ids_app, Hids. split; [by destruct onSuccess|].
  rewrite !(In_run _ kb (length selected)), !In_closing by done.
  split; right; right; left; left; (split; [done|]).
  - right. right. by left.
  - by repeat right.
Qed.

End ConfirmProperties.

End DialogProperties.

(** * Further runs *)

Section FurtherRuns.
Import Json Scenario Samples.

Local Open Scope nat_scope.

Lemma redelivery_silent_witness :
  onData all_callbacks chunk_Hel after_Hel = (Returned (), after_Hel, []).
Proof.
  apply (redelivery_silent all_callbacks chunk_Hel fresh parsed_Hel (VStr "r1")).
  - vm_compute. reflexivity.
  - reflexivity.
  - right. exists "r1". reflexivity.
  - exists "r1-3". vm_compute. reflexivity.
Defined.

Lemma processedChunks_bounded_witness :
  size (processedChunks (state_of
    (chatStream (stub (Some "key") [Data chunk_Hel; Data chunk_Hel; Data chunk_lo])
       model messages all_callbacks [] after_Hel))) ≤ 3.
Proof.
  apply (processedChunks_bounded
           (stub (Some "key") [Data chunk_Hel; Data chunk_Hel; Data chunk_lo])
           model messages all_callbacks [] after_Hel "key").
  - reflexivity.
  - discriminate.
Defined.

Lemma lastContentLength_stays_zero_witness :
  lastContentLength (state_of
    (chatStream (stub (Some "key") [Data chunk_Hel; Data chunk_lo])
       model messages all_callbacks [] fresh)) = 0.
Proof.
  apply (lastContentLength_stays_zero (stub (Some "key") [Data chunk_Hel; Data chunk_lo])
           model messages all_callbacks [] fresh "key").
  - reflexivity.
  - discriminate.
Defined.

Lemma complete_only_on_STOP_witness :
  ∃ parsedData candidate,
    JSON_parse chunk_lo = Some parsedData ∧
    first_candidate parsedData = Some candidate ∧
    get candidate "finishReason" = Some (VStr "STOP").
Proof.
  apply (complete_only_on_STOP all_callbacks chunk_lo after_Hel).
  vm_compute. right. left. reflexivity.
Defined.

Lemma tokens_are_texts_witness :
  ∃ parsedData candidate part,
    JSON_parse chunk_Hel = Some parsedData ∧
    first_candidate parsedData = Some candidate ∧
    In part (content_parts candidate) ∧
    get part "text" = Some (VStr "Hel") ∧
    truthy (VStr "Hel" : value dec) = true.
Proof.
  apply (tokens_are_texts all_callbacks chunk_Hel fresh (VStr "Hel")).
  vm_compute. left. reflexivity.
Defined.

Lemma plain_chunk_callbacks_witness :
  trace_of (onData all_callbacks chunk_same_length fresh)
    = [OnToken (VStr "abc"); OnComplete; OnError (Error "Content blocked: SAFETY")].
Proof.
  apply (plain_chunk_callbacks all_callbacks chunk_same_length fresh parsed_same_length
           "r1-3" candidate_same_length ["abc"] (VStr "STOP") (Some "SAFETY")).
  - vm_compute. reflexivity.
  - vm_compute. reflexivity.
  - apply (bool_decide_unpack _). vm_compute. reflexivity.
  - reflexivity.
  - repeat constructor.
  - reflexivity.
  - reflexivity.
Defined.

Lemma blocked_chunk_callbacks_witness :
  trace_of (onData all_callbacks chunk_blocked fresh)
    = [OnError (Error "Content blocked: SAFETY")].
Proof.
  apply (blocked_chunk_callbacks all_callbacks chunk_blocked fresh parsed_blocked
           "null-0" (Some "SAFETY")).
  - vm_compute. reflexivity.
  - vm_compute. reflexivity.
  - apply (bool_decide_unpack _). vm_compute. reflexivity.
  - reflexivity.
  - reflexivity.
Defined.

Lemma chatStream_forgets_state_witness :
  chatStream (stub (Some "key") [Data chunk_lo]) model messages all_callbacks [] after_Hel
    = chatStream (stub (Some "key") [Data chunk_lo]) model messages all_callbacks [] fresh.
Proof.
  apply (chatStream_forgets_state (stub (Some "key") [Data chunk_lo]) model messages
           all_callbacks [] after_Hel fresh).
  reflexivity.
Defined.

Lemma transport_errors_forwarded_witness :
  trace_of (chatStream (rejecting [Data chunk_Hel]) model messages all_callbacks [] fresh)
    = StartConnection (stream_config (rejecting [Data chunk_Hel]) model "key" messages)
      :: trace_of (deliver all_callbacks [Data chunk_Hel] initial_state)
      ++ [OnError offline].
Proof.
  apply (proj2 (transport_errors_forwarded all_callbacks offline)
           (rejecting [Data chunk_Hel]) model messages [] fresh "key").
  - reflexivity.
  - discriminate.
  - reflexivity.
Defined.

Lemma checkConnection_agrees_with_chatStream_witness :
  ∃ r, checkConnection (stub (Some "key") [Data chunk_Hel]) fresh = (Returned r, fresh, []) ∧
       attempt_count (trace_of (chatStream (stub (Some "key") [Data chunk_Hel])
                                  model messages all_callbacks [] fresh))
         = (if ok r then 1 else 0).
Proof.
  apply (checkConnection_agrees_with_chatStream (stub (Some "key") [Data chunk_Hel])
           model messages all_callbacks [] fresh).
  reflexivity.
Defined.

Lemma strip_trailing_slash_spec_witness :
  strip_trailing_slash "https://host/v1beta//" = "https://host/v1beta/".
Proof.
  apply (proj1 (strip_trailing_slash_spec "https://host/v1beta//") "https://host/v1beta/").
  reflexivity.
Defined.

Lemma fetchModels_spec_witness :
  ∃ infos, fetchModels catalog = Some infos ∧
    length infos = 2 ∧
    map info_name infos = ["gemini-pro"; "gemini-flash"] ∧
    map info_label infos = [Some "Gemini Pro"; None] ∧
    Forall (λ i, info_aliases i = [info_name i]) infos.
Proof.
  apply (proj2 (fetchModels_spec catalog)
           [ {| static_id := "gemini-pro"; static_label := Some "Gemini Pro" |};
             {| static_id := "gemini-flash"; static_label := None |} ]).
  reflexivity.
Defined.

Lemma lifecycle_state_witness :
  cancelStream after_Hel = (after_Hel, [SseStopConnection]) ∧
  trace_of (onData all_callbacks chunk_Hel (cancelStream after_Hel).1) = [] ∧
  destroy after_Hel = (initial_state, [SseDestroy]) ∧
  onData all_callbacks chunk_Hel (destroy after_Hel).1
    = onData all_callbacks chunk_Hel initial_state.
Proof.
  apply (lifecycle_state all_callbacks chunk_Hel fresh parsed_Hel (VStr "r1")).
  - vm_compute. reflexivity.
  - reflexivity.
  - right. exists "r1". reflexivity.
  - exists "r1-3". vm_compute. reflexivity.
Defined.


Lemma keys_mapped_witness :
  Transform.default_api_key (Transform.mapToProviderWithStatus unreachable) = Some "key".
Proof.
  apply (proj1 (proj2 (proj2 (keys_mapped unreachable))) "key").
  - discriminate.
  - reflexivity.
Defined.

Lemma toggle_spec_witness :
  NoDup (Dialog.toggle "doc1" ["doc1"; "doc2"]) ∧
  Dialog.toggle "doc1" (Dialog.toggle "doc1" ["doc1"; "doc2"]) = ["doc2"; "doc1"].
Proof.
  assert (NoDup ["doc1"; "doc2"]) as Hnodup
    by (apply (bool_decide_unpack _); vm_compute; reflexivity).
  destruct (toggle_spec "doc1" ["doc1"; "doc2"] Hnodup)
    as (Hkept & _ & _ & _ & _ & Htwice).
  split; [exact Hkept|]. apply Htwice. reflexivity.
Defined.


Lemma handleConfirm_leaves_idle_witness :
  Dialog.state_after busy
    (Dialog.handleConfirm service "kb1" true offered ["doc1"; "doc2"])
    = {| Dialog.adding := false; Dialog.shown_progress := Dialog.Percent0;
         Dialog.progressMessage := EmptyString; Dialog.selected_ids := [] |}.
Proof.
  apply (proj2 (handleConfirm_leaves_idle service "kb1" true offered
                  ["doc1"; "doc2"] busy)).
  discriminate.
Defined.

Lemma documents_handed_over_witness :
  Dialog.added_ids
    (Dialog.handleConfirm service "kb1" true offered
       ["chat_c1_0"; "doc1"; "doc9"; "doc2"; "doc1"])
    = ["doc1"; "doc2"].
Proof.
  apply (documents_handed_over service "kb1" true offered
           ["chat_c1_0"; "doc1"; "doc9"; "doc2"; "doc1"]).
  discriminate.
Defined.

Lemma nothing_added_yet_success_witness :
  Dialog.added_ids
    (Dialog.handleConfirm service "kb1" false offered ["chat_c1_0"; "chat_c1_1"]) = [] ∧
  In (Dialog.Toast Dialog.toast_success "文档已成功添加并索引")
     (Dialog.handleConfirm service "kb1" false offered ["chat_c1_0"; "chat_c1_1"]) ∧
  In (Dialog.OnOpenChange false)
     (Dialog.handleConfirm service "kb1" false offered ["chat_c1_0"; "chat_c1_1"]).
Proof.
  apply (nothing_added_yet_success service "kb1" false offered ["chat_c1_0"; "chat_c1_1"]).
  - discriminate.
  - intros x [<-|[<-|[]]]; reflexivity.
Defined.

End FurtherRuns.
